(** * Code-trackr backend (backend/server.py): model and properties

    The FastAPI service keeps two MongoDB collections (users, problems),
    issues HS256 bearer tokens and derives per-user statistics.  The
    handlers are embedded as functions that thread the database
    explicitly; library calls (bcrypt, HMAC, ISO date parsing and
    printing) are an interface [Libs] that every statement quantifies
    over. *)

From Stdlib Require Import ZArith String Ascii Lia OrdersEx.
From Stdlib Require Import Floats.SpecFloat.
From stdpp Require Import base list strings sorting pretty.

Local Open Scope string_scope.
Local Open Scope list_scope.
Local Open Scope Z_scope.

Set Warnings "-register-all,-clear-no-such-hyp".

(** ** Python building blocks *)

Module Py.

(** Exceptions that leave a handler, and what a handler call produces. *)
Inductive exn :=
| HTTPException (status_code : Z) (detail : string)
| RequestValidationError
| ValueError
| AttributeError (attribute : string).

Inductive outcome (A : Type) :=
| Return (a : A)
| Raise (e : exn).
Arguments Return {A} a.
Arguments Raise {A} e.

(** The HTTP status the framework answers with: 200 for a returned
    value, the exception's own code for [HTTPException], 422 for a
    request that fails model validation, 500 for anything unhandled. *)
Definition status {A} (o : outcome A) : Z :=
  match o with
  | Return _ => 200
  | Raise (HTTPException c _) => c
  | Raise RequestValidationError => 422
  | Raise ValueError => 500
  | Raise (AttributeError _) => 500
  end.

(** [list.sort] / [sorted] are stable.  [before a b] says that [a] has
    to come strictly ahead of [b]; elements that are not ordered either
    way keep their input order. *)
Section stable_sort.
Context {A : Type} (before : A → A → bool).

Fixpoint insert_stable (x : A) (l : list A) : list A :=
  match l with
  | [] => [x]
  | y :: l' => if before y x then y :: insert_stable x l' else x :: y :: l'
  end.

Definition sorted (l : list A) : list A := foldr insert_stable [] l.
End stable_sort.

(** [set(xs)] followed by a sort: the set is enumerated without
    repetition (the enumeration order is immaterial once sorted, see
    [sorted_desc_enumeration]). *)
Definition set_elements {A} `{EqDecision A} (l : list A) : list A := remove_dups l.

(** [sorted(xs, reverse=True)] on strings; [str] compares by code point,
    the order of the UTF-8 bytes. *)
Definition str_desc (a b : string) : bool := String.ltb b a.
Definition sorted_reverse_str (l : list string) : list string := sorted str_desc l.

(** An insertion-ordered [dict] with [int] values, as used for counting:
    assigning to a key that is already there keeps its position, a new
    key goes to the end; [items()] is the list itself. *)
Fixpoint dict_get (k : string) (default : nat) (d : list (string * nat)) : nat :=
  match d with
  | [] => default
  | (k', v) :: d' => if String.eqb k' k then v else dict_get k default d'
  end.

Fixpoint dict_set (k : string) (v : nat) (d : list (string * nat)) : list (string * nat) :=
  match d with
  | [] => [(k, v)]
  | (k', v') :: d' => if String.eqb k' k then (k', v) :: d' else (k', v') :: dict_set k v d'
  end.

End Py.
Export Py.

(** ** Python floats (IEEE 754 binary64) *)

Module PyFloat.

Definition prec : Z := 53.
Definition emax : Z := 1024.

(** [float(n)] for an [int] (exact below 2^53, which every count here is
    taken to be). *)
Definition of_int (n : Z) : spec_float := binary_normalize prec emax n 0 false.

(** [a / b] on ints: the correctly rounded quotient. *)
Definition truediv (a b : Z) : spec_float := SFdiv prec emax (of_int a) (of_int b).

Definition mul (x y : spec_float) : spec_float := SFmul prec emax x y.

(** Nearest integer to [n / d] ([d > 0]), ties to the even one. *)
Definition div_half_even (n d : Z) : Z :=
  let q := n / d in
  let r := n mod d in
  match 2 * r ?= d with
  | Lt => q
  | Gt => q + 1
  | Eq => if Z.even q then q else q + 1
  end.

(** The number of tenths nearest to the value [m * 2^e]. *)
Definition tenths (m : positive) (e : Z) : Z :=
  if 0 <=? e then 10 * Z.pos m * 2 ^ e
  else div_half_even (10 * Z.pos m) (2 ^ (- e)).

(** [round(x, 1)]: the exact value of [x] is rounded to one decimal,
    half to even, and the decimal is read back as the nearest float. *)
Definition round1 (x : spec_float) : spec_float :=
  match x with
  | S754_finite s m e =>
      let t := tenths m e in
      if t =? 0 then S754_zero s
      else SFdiv prec emax (of_int (if s then - t else t)) (of_int 10)
  | _ => x
  end.

End PyFloat.

(** ** Request bodies *)

(** A parsed JSON document.  An object keeps its members in source
    order; [json.loads] lets the last occurrence of a key win. *)
Inductive json :=
| JNull
| JBool (b : bool)
| JNumber (n : Z)
| JString (s : string)
| JArray (items : list json)
| JObject (members : list (string * json)).

Fixpoint member (k : string) (ms : list (string * json)) : option json :=
  match ms with
  | [] => None
  | (k', v) :: ms' =>
      match member k ms' with
      | Some v' => Some v'
      | None => if String.eqb k' k then Some v else None
      end
  end.

(** Field validators of the pydantic models: [str] takes a JSON string
    and nothing else, [List[str]] a JSON array of strings.  Neither
    carries a length constraint. *)
Definition as_str (j : option json) : option string :=
  match j with
  | Some (JString s) => Some s
  | _ => None
  end.

Definition as_list_str (j : option json) : option (list string) :=
  match j with
  | Some (JArray items) => mapM (λ i, as_str (Some i)) items
  | _ => None
  end.

(** ** Data model *)

Module User.
Record t := mk { id : string; username : string; created_at : Z }.

(** [model_dump()]: the fields of the model, in declaration order (the
    timestamp stands for its ISO-8601 rendering). *)
Definition model_dump (u : t) : list (string * json) :=
  [("id", JString (id u)); ("username", JString (username u));
   ("created_at", JNumber (created_at u))].
End User.

Module UserRegister.
Record t := mk { username : string; password : string }.
End UserRegister.

Module UserLogin.
Record t := mk { username : string; password : string }.
End UserLogin.

(** A document of [db.users]: the dumped [User] plus the password hash. *)
Module UserDoc.
Record t := mk { id : string; username : string; created_at : Z; password : string }.
End UserDoc.

Module Problem.
Record t := mk {
  id : string;
  user_id : string;
  title : string;
  platform : string;
  difficulty : string;
  topics : list string;
  date_completed : string;
  created_at : Z
}.
End Problem.

Module ProblemCreate.
Record t := mk {
  title : string;
  platform : string;
  difficulty : string;
  topics : list string;
  date_completed : string
}.

(** Validation of a request body against the model: every field is
    required, none is constrained beyond its type. *)
Definition validate (body : json) : option t :=
  match body with
  | JObject ms =>
      title ← as_str (member "title" ms);
      platform ← as_str (member "platform" ms);
      difficulty ← as_str (member "difficulty" ms);
      topics ← as_list_str (member "topics" ms);
      date_completed ← as_str (member "date_completed" ms);
      Some (mk title platform difficulty topics date_completed)
  | _ => None
  end.
End ProblemCreate.

Module TopicStats.
Record t := mk { topic : string; count : nat; percentage : spec_float }.
End TopicStats.

Module Stats.
Record t := mk { total_solved : nat; current_streak : nat; topic_wise : list TopicStats.t }.
End Stats.

(** ** Bearer tokens *)

(** The claims this service writes and reads: ["sub"] and ["exp"]
    (seconds since the epoch).  [None] is an absent (or null) claim. *)
Record claims := Claims { sub : option string; exp : option Z }.

(** What arrives in the [Authorization] header: a string that is not a
    compact HS256 JWS at all, or a payload with its signature. *)
Inductive jwt :=
| NotJws (raw : string)
| Jws (payload : claims) (signature : string).

Module HTTPAuthorizationCredentials.
Record t := mk { scheme : string; credentials : jwt }.
End HTTPAuthorizationCredentials.

Module Token.
Record t := mk { access_token : jwt; token_type : string; user : User.t }.
End Token.

(** ** The database *)

Record Db := { users : list UserDoc.t; problems : list Problem.t }.

(** Motor collection operations, on a collection kept in insertion order. *)
Module Collection.
Section ops.
Context {D : Type} (matches : D → bool).
Definition find_one (c : list D) : option D := head (filter matches c).
Definition find_to_list (limit : nat) (c : list D) : list D := take limit (filter matches c).
Definition count_documents (c : list D) : nat := length (filter matches c).
End ops.
Definition insert_one {D} (d : D) (c : list D) : list D := c ++ [d].
End Collection.

(** ** Library interface and request environment *)

Class Libs := {
  (** passlib's bcrypt context: [hash] draws a salt, [verify] checks. *)
  pwd_hash : string → string → string;
  pwd_verify : string → string → bool;
  (** HMAC-SHA256 of the signing input under a key. *)
  hs256 : string → claims → string;
  (** [date.isoformat()] and [datetime.fromisoformat(s).date()], dates
      counted in days since the epoch; [None] is [ValueError]. *)
  date_isoformat : Z → string;
  date_fromisoformat : string → option Z
}.

(** What one request draws from outside: the UTC clock (seconds since
    the epoch; a request is served within one reading), the [uuid4]
    values in the order they are generated, and the salt for a password
    hash. *)
Record Env := { now : Z; uuid4 : nat → string; salt : string }.

Definition utc_date (t : Z) : Z := t / 86400.

Module Message.
Record t := mk { message : string }.
End Message.

(** ** The jwt library: HS256 encode and decode

    The library is outside the repository; this is its contract for
    the two calls the server makes.  [import jwt] with module-level
    [encode] and [decode] is PyJWT: a decoding failure other than expiry
    (a string that is no token, a signature that does not match) is an
    [InvalidTokenError], and the module has no attribute [JWTError].  A
    token counts as expired from its expiry instant on. *)

Module Jwt.
Section hs256.
Context `{Libs}.

Inductive error := ExpiredSignatureError | InvalidTokenError.

Definition encode (payload : claims) (key : string) : jwt :=
  Jws payload (hs256 key payload).

(** [decode] at clock reading [t]: the signature is checked first, then
    the expiry claim when there is one. *)
Definition decode (t : Z) (token : jwt) (key : string) : error + claims :=
  match token with
  | NotJws _ => inl InvalidTokenError
  | Jws payload signature =>
      if String.eqb signature (hs256 key payload) then
        match exp payload with
        | Some e => if e <=? t then inl ExpiredSignatureError else inr payload
        | None => inr payload
        end
      else inl InvalidTokenError
  end.

End hs256.
End Jwt.

(** ** server.py *)

Section server.
Context `{Libs}.
Variable SECRET_KEY : string.

Definition ACCESS_TOKEN_EXPIRE_MINUTES : Z := 30 * 24 * 60.

Definition timedelta_minutes (m : Z) : Z := m * 60.
Definition timedelta_days (d : Z) : Z := d * 86400.

Definition hash_password (env : Env) (password : string) : string :=
  pwd_hash (salt env) password.

Definition verify_password (plain_password hashed_password : string) : bool :=
  pwd_verify plain_password hashed_password.

Definition create_access_token (env : Env) (data : claims) : jwt :=
  let to_encode := data in
  let expire := now env + timedelta_minutes ACCESS_TOKEN_EXPIRE_MINUTES in
  let to_encode := {| sub := sub to_encode; exp := Some expire |} in
  Jwt.encode to_encode SECRET_KEY.

(** What the [try] body of [get_current_user] raises: an error of the
    jwt library, or the server's own exception for a missing subject. *)
Inductive raised :=
| Library (e : Jwt.error)
| Own (e : exn).

(** The [except] clauses are tried in order on whatever the body
    raised.  The first names [jwt.ExpiredSignatureError].  The second
    names [jwt.JWTError]: evaluating that expression raises
    [AttributeError], which leaves the function in place of the
    exception being handled, so the second handler never runs. *)
Definition get_current_user (env : Env) (credentials : HTTPAuthorizationCredentials.t)
  : outcome string :=
  let token := HTTPAuthorizationCredentials.credentials credentials in
  let body : raised + string :=
    match Jwt.decode (now env) token SECRET_KEY with
    | inl e => inl (Library e)
    | inr payload =>
        match sub payload with
        | None => inl (Own (HTTPException 401 "Invalid authentication credentials"))
        | Some user_id => inr user_id
        end
    end in
  match body with
  | inr user_id => Return user_id
  | inl (Library Jwt.ExpiredSignatureError) => Raise (HTTPException 401 "Token has expired")
  | inl _ => Raise (AttributeError "JWTError")
  end.

(** [Depends(get_current_user)]: the handler body runs only with the
    user id the dependency returned. *)
Definition authenticated {A} (env : Env) (credentials : HTTPAuthorizationCredentials.t)
    (handler : string → Db → outcome A * Db) (db : Db) : outcome A * Db :=
  match get_current_user env credentials with
  | Raise e => (Raise e, db)
  | Return user_id => handler user_id db
  end.

(** *** Auth endpoints *)

Definition by_username (name : string) (d : UserDoc.t) : bool :=
  String.eqb (UserDoc.username d) name.

Definition register (env : Env) (user_data : UserRegister.t) (db : Db)
  : outcome Token.t * Db :=
  match Collection.find_one (by_username (UserRegister.username user_data)) (users db) with
  | Some _ => (Raise (HTTPException 400 "Username already registered"), db)
  | None =>
      let user := User.mk (uuid4 env 0) (UserRegister.username user_data) (now env) in
      let user_dict :=
        UserDoc.mk (User.id user) (User.username user) (User.created_at user)
                   (hash_password env (UserRegister.password user_data)) in
      let db' := {| users := Collection.insert_one user_dict (users db);
                    problems := problems db |} in
      let access_token := create_access_token env (Claims (Some (User.id user)) None) in
      (Return (Token.mk access_token "bearer" user), db')
  end.

Definition login (env : Env) (user_data : UserLogin.t) (db : Db)
  : outcome Token.t * Db :=
  match Collection.find_one (by_username (UserLogin.username user_data)) (users db) with
  | None => (Raise (HTTPException 401 "Incorrect username or password"), db)
  | Some user_doc =>
      if negb (verify_password (UserLogin.password user_data) (UserDoc.password user_doc))
      then (Raise (HTTPException 401 "Incorrect username or password"), db)
      else
        let user := User.mk (UserDoc.id user_doc) (UserDoc.username user_doc)
                            (UserDoc.created_at user_doc) in
        let access_token := create_access_token env (Claims (Some (User.id user)) None) in
        (Return (Token.mk access_token "bearer" user), db)
  end.

(** *** Problem endpoints *)

Definition by_user_id (user_id : string) (p : Problem.t) : bool :=
  String.eqb (Problem.user_id p) user_id.

Definition new_problem (env : Env) (n : nat) (user_id : string) (problem_data : ProblemCreate.t)
  : Problem.t :=
  Problem.mk (uuid4 env n) user_id
             (ProblemCreate.title problem_data) (ProblemCreate.platform problem_data)
             (ProblemCreate.difficulty problem_data) (ProblemCreate.topics problem_data)
             (ProblemCreate.date_completed problem_data) (now env).

Definition create_problem (env : Env) (problem_data : ProblemCreate.t) (user_id : string)
    (db : Db) : outcome Problem.t * Db :=
  let problem := new_problem env 0 user_id problem_data in
  (Return problem,
   {| users := users db; problems := Collection.insert_one problem (problems db) |}).

Definition get_problems (user_id : string) (db : Db) : outcome (list Problem.t) * Db :=
  (Return (Collection.find_to_list (by_user_id user_id) 1000 (problems db)), db).

(** *** Statistics *)

(** [topic_count[topic] = topic_count.get(topic, 0) + 1] *)
Definition incr (topic_count : list (string * nat)) (topic : string) : list (string * nat) :=
  dict_set topic (dict_get topic 0 topic_count + 1)%nat topic_count.

Definition count_topics (problems : list Problem.t) : list (string * nat) :=
  fold_left
    (λ topic_count problem, fold_left incr (Problem.topics problem) topic_count)
    problems [].

Definition percentage_of (count total_solved : nat) : spec_float :=
  let percentage :=
    if (0 <? total_solved)%nat
    then PyFloat.mul (PyFloat.truediv (Z.of_nat count) (Z.of_nat total_solved))
                     (PyFloat.of_int 100)
    else PyFloat.of_int 0 in
  PyFloat.round1 percentage.

Definition topic_stats (total_solved : nat) (item : string * nat) : TopicStats.t :=
  TopicStats.mk item.1 item.2 (percentage_of item.2 total_solved).

(** [key=lambda x: x.count, reverse=True] *)
Definition count_desc (a b : TopicStats.t) : bool :=
  (TopicStats.count b <? TopicStats.count a)%nat.

(** The [for i, date_str in enumerate(dates)] loop with its [break]. *)
Fixpoint streak_loop (today : Z) (i : nat) (current_streak : nat) (dates : list string)
  : outcome nat :=
  match dates with
  | [] => Return current_streak
  | date_str :: dates' =>
      match date_fromisoformat date_str with
      | None => Raise ValueError
      | Some date =>
          let expected_date := today - Z.of_nat i in
          if date =? expected_date
          then streak_loop today (S i) (S current_streak) dates'
          else Return current_streak
      end
  end.

Definition completion_dates (problems : list Problem.t) : list string :=
  sorted_reverse_str (set_elements (Problem.date_completed <$> problems)).

Definition compute_streak (today : Z) (problems : list Problem.t) : outcome nat :=
  match problems with
  | [] => Return 0%nat
  | _ => streak_loop today 0 0 (completion_dates problems)
  end.

(** The body of [get_stats] once the caller's problems are fetched. *)
Definition stats_of (today : Z) (problems : list Problem.t) : outcome Stats.t :=
  let total_solved := length problems in
  let topic_count := count_topics problems in
  let topic_wise := topic_stats total_solved <$> topic_count in
  let topic_wise := sorted count_desc topic_wise in
  match compute_streak today problems with
  | Raise e => Raise e
  | Return current_streak => Return (Stats.mk total_solved current_streak topic_wise)
  end.

Definition get_stats (env : Env) (user_id : string) (db : Db) : outcome Stats.t * Db :=
  let problems := Collection.find_to_list (by_user_id user_id) 1000 (problems db) in
  (stats_of (utc_date (now env)) problems, db).

(** *** Seed data *)

Definition days_ago (env : Env) (d : Z) : string :=
  date_isoformat (utc_date (now env - timedelta_days d)).

Definition sample_problems (env : Env) : list ProblemCreate.t :=
  [ ProblemCreate.mk "Two Sum" "LeetCode" "Easy" ["Arrays"; "Hash Table"] (days_ago env 5);
    ProblemCreate.mk "Reverse Linked List" "LeetCode" "Easy" ["Linked List"] (days_ago env 4);
    ProblemCreate.mk "Valid Parentheses" "LeetCode" "Easy" ["Stack"; "Strings"] (days_ago env 3);
    ProblemCreate.mk "Binary Tree Inorder Traversal" "LeetCode" "Medium" ["Trees"; "DFS"]
                     (days_ago env 2);
    ProblemCreate.mk "Longest Palindromic Substring" "LeetCode" "Medium" ["Strings"; "DP"]
                     (days_ago env 1);
    ProblemCreate.mk "Merge Two Sorted Lists" "LeetCode" "Easy" ["Linked List"]
                     (date_isoformat (utc_date (now env)));
    ProblemCreate.mk "Maximum Subarray" "LeetCode" "Medium" ["Arrays"; "DP"]
                     (date_isoformat (utc_date (now env)));
    ProblemCreate.mk "Climbing Stairs" "LeetCode" "Easy" ["DP"] (days_ago env 6);
    ProblemCreate.mk "Roman to Integer" "Codeforces" "Easy" ["Strings"; "Hash Table"]
                     (days_ago env 7);
    ProblemCreate.mk "Binary Search" "Codeforces" "Easy" ["Arrays"; "Binary Search"]
                     (days_ago env 8) ].

(** The insertion loop; [n] counts the ids drawn so far. *)
Fixpoint seed_loop (env : Env) (user_id : string) (n : nat) (samples : list ProblemCreate.t)
    (collection : list Problem.t) : list Problem.t :=
  match samples with
  | [] => collection
  | problem_data :: samples' =>
      seed_loop env user_id (S n) samples'
                (Collection.insert_one (new_problem env n user_id problem_data) collection)
  end.

Definition seed_data (env : Env) (user_id : string) (db : Db) : outcome Message.t * Db :=
  let existing_count := Collection.count_documents (by_user_id user_id) (problems db) in
  if (0 <? existing_count)%nat
  then (Return (Message.mk "User already has problems"), db)
  else
    let samples := sample_problems env in
    (Return (Message.mk ("Seeded " +:+ pretty (length samples) +:+ " sample problems")),
     {| users := users db; problems := seed_loop env user_id 0 samples (problems db) |}).

(** *** Routes: dependency resolution, body validation, handler *)

Definition with_body {A} (body : json) (handler : ProblemCreate.t → string → Db → outcome A * Db)
    (user_id : string) (db : Db) : outcome A * Db :=
  match ProblemCreate.validate body with
  | None => (Raise RequestValidationError, db)
  | Some problem_data => handler problem_data user_id db
  end.

Definition post_problems (env : Env) (credentials : HTTPAuthorizationCredentials.t)
    (body : json) (db : Db) : outcome Problem.t * Db :=
  authenticated env credentials (with_body body (create_problem env)) db.

Definition get_problems_route (env : Env) (credentials : HTTPAuthorizationCredentials.t)
    (db : Db) : outcome (list Problem.t) * Db :=
  authenticated env credentials get_problems db.

Definition get_stats_route (env : Env) (credentials : HTTPAuthorizationCredentials.t)
    (db : Db) : outcome Stats.t * Db :=
  authenticated env credentials (get_stats env) db.

Definition post_seed_data (env : Env) (credentials : HTTPAuthorizationCredentials.t)
    (db : Db) : outcome Message.t * Db :=
  authenticated env credentials (seed_data env) db.

End server.

(** ** backend_test.py: the API tester

    The bookkeeping of [CodeTrackrAPITester] and the way it sends a
    request.  The HTTP client is outside the repository: [send] stands
    for [requests.get/post/put/delete] against some server state
    [World], answering with a response or raising; how Python prints a
    JSON value, where it cuts a text and what an unbound local says are
    parameters too.  Console output is not part of the state. *)

Module Tester.

(** A response as the tester reads it: [json_body] is what [.json()]
    gives, [inl] the message of the exception it raises. *)
Record response := {
  status_code : Z;
  content : string;
  text : string;
  json_body : string + json
}.

Record result := { test : string; success : bool; details : string }.

Record t := {
  base_url : string;
  api_url : string;
  token : option string;
  user_id : option string;
  tests_run : nat;
  tests_passed : nat;
  test_results : list result
}.

(** [__init__] *)
Definition init (base_url : string) : t :=
  {| base_url := base_url; api_url := base_url +:+ "/api"; token := None;
     user_id := None; tests_run := 0; tests_passed := 0; test_results := [] |}.

Definition set_token (token : option string) (self : t) : t :=
  {| base_url := base_url self; api_url := api_url self; token := token;
     user_id := user_id self; tests_run := tests_run self;
     tests_passed := tests_passed self; test_results := test_results self |}.

Definition log_test (name : string) (success : bool) (details : string) (self : t) : t :=
  {| base_url := base_url self; api_url := api_url self; token := token self;
     user_id := user_id self;
     tests_run := tests_run self + 1;
     tests_passed := if success then tests_passed self + 1 else tests_passed self;
     test_results := test_results self ++ [Build_result name success details] |}.

(** [get_results]: the exit code. *)
Definition get_results (self : t) : Z :=
  if (tests_passed self =? tests_run self)%nat then 0 else 1.

(** A [dict] of headers: [d[k] = v] and [d.update(other)]. *)
Fixpoint header_set (k v : string) (d : list (string * string)) : list (string * string) :=
  match d with
  | [] => [(k, v)]
  | (k', v') :: d' => if String.eqb k' k then (k', v) :: d' else (k', v') :: header_set k v d'
  end.

Definition headers_update (d other : list (string * string)) : list (string * string) :=
  fold_left (λ d kv, header_set kv.1 kv.2 d) other d.

(** What a test method does to the tester: a request through
    [run_test], an entry logged directly, an assignment to [token], or
    one of the two test methods modelled below. *)
Inductive step :=
| Run (name method endpoint : string) (expected_status : Z)
      (data : option json) (headers : option (list (string * string)))
| Log (name : string) (success : bool) (details : string)
| SetToken (token : option string)
| ProtectedRouteWithoutToken
| InvalidLogin.

Section client.
Context {World : Type}.
Variable send : string → string → option json → list (string * string) → World →
                (string + response) * World.
Variable show_json : json → string.
Variable first_200 : string → string.
Variable unbound_local : string.

Definition request_headers (self : t) (headers : option (list (string * string)))
  : list (string * string) :=
  let test_headers := [("Content-Type", "application/json")] in
  let test_headers :=
    match token self with
    | Some tok => if String.eqb tok "" then test_headers
                  else header_set "Authorization" ("Bearer " +:+ tok) test_headers
    | None => test_headers
    end in
  match headers with
  | Some other => headers_update test_headers other
  | None => test_headers
  end.

(** The four [requests] calls; any other method sends nothing and
    leaves [response] unbound. *)
Definition dispatch (method url : string) (data : option json)
    (test_headers : list (string * string)) (w : World) : (string + response) * World :=
  if String.eqb method "GET" then send "GET" url None test_headers w
  else if String.eqb method "POST" then send "POST" url data test_headers w
  else if String.eqb method "PUT" then send "PUT" url data test_headers w
  else if String.eqb method "DELETE" then send "DELETE" url None test_headers w
  else (inl unbound_local, w).

Definition run_test (name method endpoint : string) (expected_status : Z)
    (data : option json) (headers : option (list (string * string)))
    (self : t) (w : World) : (bool * json) * t * World :=
  let url := api_url self +:+ "/" +:+ endpoint in
  let test_headers := request_headers self headers in
  match dispatch method url data test_headers w with
  | (inl e, w') => ((false, JObject []), log_test name false ("Exception: " +:+ e) self, w')
  | (inr response, w') =>
      let success := status_code response =? expected_status in
      let details := "Status: " +:+ pretty (status_code response) in
      let details :=
        if success then details
        else match json_body response with
             | inr error_data => details +:+ ", Response: " +:+ show_json error_data
             | inl _ => details +:+ ", Response: " +:+ first_200 (text response)
             end in
      let self := log_test name success (if success then "" else details) self in
      if success && negb (String.eqb (content response) "") then
        match json_body response with
        | inr body => ((true, body), self, w')
        | inl e => ((false, JObject []), log_test name false ("Exception: " +:+ e) self, w')
        end
      else ((success, JObject []), self, w')
  end.

Definition test_protected_route_without_token (self : t) (w : World) : bool * t * World :=
  let temp_token := token self in
  let self := set_token None self in
  let '((success, _), self, w) :=
    run_test "Protected Route Without Token" "GET" "problems" 401 None None self w in
  let self := set_token temp_token self in
  (success, self, w).

Definition test_invalid_login (self : t) (w : World) : bool * t * World :=
  let '((success, _), self, w) :=
    run_test "Invalid Login" "POST" "auth/login" 401
             (Some (JObject [("username", JString "nonexistent");
                             ("password", JString "wrongpass")]))
             None self w in
  (success, self, w).

Definition do_step (s : step) (self : t) (w : World) : t * World :=
  match s with
  | Run name method endpoint expected_status data headers =>
      let r := run_test name method endpoint expected_status data headers self w in
      (r.1.2, r.2)
  | Log name success details => (log_test name success details self, w)
  | SetToken token => (set_token token self, w)
  | ProtectedRouteWithoutToken =>
      let r := test_protected_route_without_token self w in (r.1.2, r.2)
  | InvalidLogin =>
      let r := test_invalid_login self w in (r.1.2, r.2)
  end.

(** A fresh tester after a sequence of steps. *)
Definition after_steps (base_url : string) (steps : list step) (w : World) : t * World :=
  fold_left (λ st s, do_step s st.1 st.2) steps (init base_url, w).

(** The expected status arrives with a body that [.json()] cannot
    read. *)
Definition unreadable_success (method url : string) (data : option json)
    (test_headers : list (string * string)) (expected_status : Z) (w : World) : Prop :=
  ∃ response, (dispatch method url data test_headers w).1 = inr response ∧
    status_code response = expected_status ∧
    content response ≠ "" ∧
    ∃ e, json_body response = inl e.

End client.

(** The counters agree with the recorded results. *)
Definition consistent (self : t) : Prop :=
  tests_run self = length (test_results self) ∧
  tests_passed self = length (filter (λ r, success r = true) (test_results self)).

End Tester.

(** ** A concrete instance of the library interface

    Dates in the date-only ISO form [YYYY-MM-DD] of the proleptic
    Gregorian calendar, the form [date.isoformat] prints and the
    requests of the test suite carry.  [datetime.fromisoformat] reads
    more than that (a time of day after the date, and from Python 3.11
    the basic form [YYYYMMDD]); this instance refuses those strings, so
    it stands for the library on date-only strings and no further.
    Signatures and password hashes are symbolic stand-ins that keep
    their inputs apart. *)

Module Iso8601.

Definition days_from_civil (y m d : Z) : Z :=
  let y := if m <=? 2 then y - 1 else y in
  let era := y / 400 in
  let yoe := y - era * 400 in
  let doy := (153 * (if 2 <? m then m - 3 else m + 9) + 2) / 5 + d - 1 in
  let doe := yoe * 365 + yoe / 4 - yoe / 100 + doy in
  era * 146097 + doe - 719468.

Definition civil_from_days (z : Z) : Z * Z * Z :=
  let z := z + 719468 in
  let era := z / 146097 in
  let doe := z - era * 146097 in
  let yoe := (doe - doe / 1460 + doe / 36524 - doe / 146096) / 365 in
  let y := yoe + era * 400 in
  let doy := doe - (365 * yoe + yoe / 4 - yoe / 100) in
  let mp := (5 * doy + 2) / 153 in
  let d := doy - (153 * mp + 2) / 5 + 1 in
  let m := if mp <? 10 then mp + 3 else mp - 9 in
  (if m <=? 2 then y + 1 else y, m, d).

Definition is_leap (y : Z) : bool :=
  (y mod 4 =? 0) && (negb (y mod 100 =? 0) || (y mod 400 =? 0)).

Definition days_in_month (y m : Z) : Z :=
  if m =? 2 then (if is_leap y then 29 else 28)
  else if (m =? 4) || (m =? 6) || (m =? 9) || (m =? 11) then 30 else 31.

Definition digit_char (n : Z) : ascii := ascii_of_N (48 + Z.to_N (n mod 10)).

Definition two_digits (n : Z) : string :=
  String (digit_char (n / 10)) (String (digit_char n) EmptyString).

Definition four_digits (n : Z) : string :=
  two_digits (n / 100) +:+ two_digits n.

Definition format (z : Z) : string :=
  let '(y, m, d) := civil_from_days z in
  four_digits y +:+ "-" +:+ two_digits m +:+ "-" +:+ two_digits d.

Definition digit_value (a : ascii) : option Z :=
  let n := Z.of_N (N_of_ascii a) in
  if (48 <=? n) && (n <=? 57) then Some (n - 48) else None.

Fixpoint number (acc : Z) (s : list ascii) : option Z :=
  match s with
  | [] => Some acc
  | a :: s' => v ← digit_value a; number (10 * acc + v) s'
  end.

Definition parse (s : string) : option Z :=
  match list_ascii_of_string s with
  | [y1; y2; y3; y4; dash1; m1; m2; dash2; d1; d2] =>
      if Ascii.eqb dash1 "-" && Ascii.eqb dash2 "-" then
        y ← number 0 [y1; y2; y3; y4];
        m ← number 0 [m1; m2];
        d ← number 0 [d1; d2];
        if (1 <=? y) && (1 <=? m) && (m <=? 12) && (1 <=? d) && (d <=? days_in_month y m)
        then Some (days_from_civil y m d) else None
      else None
  | _ => None
  end.

(** Vocabulary for reasoning about the conversion: the days before a
    year, the year that starts in March and its months counted from
    March, the calendar order on (year, month, day), and the text of a
    date given its eight digits. *)
Definition year_days (y : Z) : Z := 365 * y + y / 4 - y / 100 + y / 400.

Definition fiscal_year (y m : Z) : Z := if m <=? 2 then y - 1 else y.
Definition fiscal_month (m : Z) : Z := if 2 <? m then m - 3 else m + 9.
Definition month_start (mp : Z) : Z := (153 * mp + 2) / 5.

Definition valid_date (y m d : Z) : Prop :=
  1 ≤ m ≤ 12 ∧ 1 ≤ d ≤ days_in_month y m.

Definition earlier (a b : Z * Z * Z) : Prop :=
  let '(y, m, d) := a in
  let '(y', m', d') := b in
  y < y' ∨ (y = y' ∧ (m < m' ∨ (m = m' ∧ d < d'))).

Definition date_text (c : list ascii) : string :=
  match c with
  | [y1; y2; y3; y4; m1; m2; d1; d2] =>
      string_of_list_ascii [y1; y2; y3; y4; "-"%char; m1; m2; "-"%char; d1; d2]
  | _ => EmptyString
  end.

End Iso8601.

Module Sample.

Definition claims_text (c : claims) : string :=
  default "" (sub c) +:+ ";" +:+ from_option pretty "" (exp c).

Definition sample_hash (salt password : string) : string :=
  "$2b$" +:+ salt +:+ "$" +:+ password.

(** The plaintext after the last [$] of the hash. *)
Fixpoint after_last_dollar (acc : string) (s : string) : string :=
  match s with
  | EmptyString => acc
  | String a s' =>
      if Ascii.eqb a "$" then after_last_dollar s' s' else after_last_dollar acc s'
  end.

#[export] Instance libs : Libs := {|
  pwd_hash := sample_hash;
  pwd_verify plain hashed := String.eqb (after_last_dollar hashed hashed) plain;
  hs256 key payload := "hs256(" +:+ key +:+ ";" +:+ claims_text payload +:+ ")";
  date_isoformat := Iso8601.format;
  date_fromisoformat := Iso8601.parse
|}.

Definition key : string := "your-secret-key-change-in-production".

(** 2024-01-15 12:00:00 UTC *)
Definition noon : Z := 1705320000.

Definition env : Env :=
  {| now := noon; uuid4 n := "uuid-" +:+ pretty n; salt := "salt" |}.

Definition empty_db : Db := {| users := []; problems := [] |}.

(** Noon of the day after. *)
Definition later : Env :=
  {| now := noon + 86400; uuid4 n := "uuid'-" +:+ pretty n; salt := "pepper" |}.

Definition solved (topics : list string) (date_completed : string) : Problem.t :=
  Problem.mk "p" "alice-id" "Two Sum" "LeetCode" "Easy" topics date_completed noon.

(** Two problems today, one yesterday, one three days ago. *)
Definition history : list Problem.t :=
  [ solved ["Arrays"; "Hash Table"] "2024-01-15"; solved ["Arrays"] "2024-01-14";
    solved ["DP"; "Arrays"] "2024-01-15"; solved ["Hash Table"; "Trees"] "2024-01-12" ].

Definition alice : UserRegister.t := UserRegister.mk "alice" "TestPass123!".

(** The database after alice registered, and the token she was given. *)
Definition alice_db : Db := (register key env alice empty_db).2.

Definition alice_token : jwt :=
  create_access_token key env (Claims (Some "uuid-0") None).

Definition alice_credentials : HTTPAuthorizationCredentials.t :=
  HTTPAuthorizationCredentials.mk "Bearer" alice_token.

(** The problem of [test_create_problem] and its request body. *)
Definition test_problem : ProblemCreate.t :=
  ProblemCreate.mk "Test Problem" "LeetCode" "Easy" ["Arrays"; "Hash Table"] "2024-01-15".

Definition test_problem_body : json :=
  JObject [ ("title", JString "Test Problem"); ("platform", JString "LeetCode");
            ("difficulty", JString "Easy");
            ("topics", JArray [JString "Arrays"; JString "Hash Table"]);
            ("date_completed", JString "2024-01-15") ].

(** A user with 1000 problems stored. *)
Definition crowded_db : Db :=
  {| users := []; problems := replicate 1000 (solved ["Arrays"] "2024-01-15") |}.

Definition history_db : Db := {| users := users alice_db; problems := history |}.

(** More than thirty days after [env]. *)
Definition next_month : Env :=
  {| now := noon + 31 * 86400; uuid4 n := "uuid-" +:+ pretty n; salt := "salt" |}.

(** A server that answers every GET with 401 and a JSON body, anything
    else with 200 and a page that is no JSON, and counts the requests. *)
Definition canned (method url : string) (data : option json)
    (headers : list (string * string)) (n : nat) : (string + Tester.response) * nat :=
  if String.eqb method "GET" then
    (inr (Tester.Build_response 401 "Not authenticated" "Not authenticated"
            (inr (JObject [("detail", JString "Not authenticated")]))), S n)
  else
    (inr (Tester.Build_response 200 "<html>" "<html>" (inl "Expecting value")), S n).

Definition show_json (j : json) : string := "{...}".
Definition first_200 (s : string) : string := String.substring 0 200 s.
Definition unbound_local : string := "local variable 'response' referenced before assignment".
Definition tester : Tester.t := Tester.init "http://localhost:8001".
End Sample.

(** ** Vocabulary of the specification *)

Section spec.
Context `{Libs}.

(** [dates] is [values] without repetition, most recent first (ISO date
    strings order as the dates they denote). *)
Definition distinct_desc (values dates : list string) : Prop :=
  StronglySorted (λ a b, String.ltb b a = true) dates ∧ ∀ s, s ∈ dates ↔ s ∈ values.

Definition most_recent (values : list string) (s : string) : Prop :=
  s ∈ values ∧ ∀ s', s' ∈ values → String.ltb s s' = false.

(** The first [n] days are today, yesterday, the day before, ... *)
Definition run (today : Z) (days : list Z) (n : nat) : Prop :=
  ∀ i, (i < n)%nat → days !! i = Some (today - Z.of_nat i).

Definition longest_run (today : Z) (days : list Z) (n : nat) : Prop :=
  run today days n ∧ ∀ m, run today days m → (m ≤ n)%nat.

(** A problem whose [date_completed] is a calendar date. *)
Definition well_dated (p : Problem.t) : Prop :=
  is_Some (date_fromisoformat (Problem.date_completed p)).

Definition parsed (dates : list string) (days : list Z) : Prop :=
  Forall2 (λ s d, date_fromisoformat s = Some d) dates days.

(** The library orders ISO date strings as the dates they denote. *)
Definition order_preserving : Prop :=
  ∀ s1 s2 d1 d2,
    date_fromisoformat s1 = Some d1 → date_fromisoformat s2 = Some d2 →
    String.ltb s1 s2 = true → d1 < d2.

(** The library orders these strings as the dates it reads from them;
    date-only strings [YYYY-MM-DD] are so ordered. *)
Definition ordered_as_dates (values : list string) : Prop :=
  ∀ s1 s2 d1 d2,
    s1 ∈ values → s2 ∈ values →
    date_fromisoformat s1 = Some d1 → date_fromisoformat s2 = Some d2 →
    String.ltb s1 s2 = true → d1 < d2.

(** A token that verifies under [key] at clock reading [t] for
    [user_id]: signed with the key, not yet at its expiry, and carrying
    that subject. *)
Definition valid_token (key : string) (t : Z) (token : jwt) (user_id : string) : Prop :=
  ∃ payload,
    token = Jws payload (hs256 key payload) ∧
    (∀ e, exp payload = Some e → t < e) ∧
    sub payload = Some user_id.

(** Some problem of the list was completed on day [d]. *)
Definition completed (problems : list Problem.t) (d : Z) : Prop :=
  ∃ p, p ∈ problems ∧ date_fromisoformat (Problem.date_completed p) = Some d.

(** The database after each of the six requests the API serves. *)
Definition after_any_request (key : string) (env : Env)
    (credentials : HTTPAuthorizationCredentials.t) (body : json)
    (registration : UserRegister.t) (attempt : UserLogin.t) (db : Db) : list Db :=
  [ (register key env registration db).2;
    (login key env attempt db).2;
    (post_problems key env credentials body db).2;
    (get_problems_route key env credentials db).2;
    (get_stats_route key env credentials db).2;
    (post_seed_data key env credentials db).2 ].

(** The response of a successful register or login, from the public
    part of the user document alone. *)
Definition token_for (key : string) (env : Env) (user : User.t) : Token.t :=
  Token.mk (create_access_token key env (Claims (Some (User.id user)) None))
           "bearer" user.

End spec.

(** What a user document shows of itself outside the store. *)
Definition public (d : UserDoc.t) : User.t :=
  User.mk (UserDoc.id d) (UserDoc.username d) (UserDoc.created_at d).

(** [d] is the document the store holds for [name]: the first one with
    that username. *)
Definition stored (users : list UserDoc.t) (name : string) (d : UserDoc.t) : Prop :=
  ∃ l1 l2, users = l1 ++ d :: l2 ∧ UserDoc.username d = name ∧
           ∀ d', d' ∈ l1 → UserDoc.username d' ≠ name.

Definition username_free (users : list UserDoc.t) (name : string) : Prop :=
  ∀ d, d ∈ users → UserDoc.username d ≠ name.

Definition has_problems (problems : list Problem.t) (user_id : string) : Prop :=
  ∃ p, p ∈ problems ∧ Problem.user_id p = user_id.

#[global] Instance has_problems_dec (collection : list Problem.t) (user_id : string) :
  Decision (has_problems collection user_id).
Proof.
  refine (cast_if (decide (Exists (λ p, Problem.user_id p = user_id) collection)));
    unfold has_problems; rewrite Exists_exists in *; done.
Defined.

Definition sample_titles : list string :=
  [ "Two Sum"; "Reverse Linked List"; "Valid Parentheses"; "Binary Tree Inorder Traversal";
    "Longest Palindromic Substring"; "Merge Two Sorted Lists"; "Maximum Subarray";
    "Climbing Stairs"; "Roman to Integer"; "Binary Search" ].

(** The request body of the repository's own invalid-creation test:
    empty title and empty topics. *)
Definition empty_title_and_topics : json :=
  JObject [ ("title", JString ""); ("platform", JString "LeetCode");
            ("difficulty", JString "Easy"); ("topics", JArray []);
            ("date_completed", JString "2024-01-15") ].

(** Every topic of every problem, in the order the problems list them. *)
Definition all_topics (problems : list Problem.t) : list string :=
  mjoin (Problem.topics <$> problems).

(** The distinct values of a list in order of first appearance. *)
Fixpoint first_seen (l : list string) : list string :=
  match l with
  | [] => []
  | x :: l' => x :: filter (λ y, y ≠ x) (first_seen l')
  end.

Definition occurrences (t : string) (l : list string) : nat :=
  length (filter (λ y, y = t) l).

(** The keys [ks], each with its value under [f]. *)
Definition table (f : string → nat) (ks : list string) : list (string * nat) :=
  (λ k, (k, f k)) <$> ks.





(** The body is a JSON object carrying the five fields of
    [problem_data], the strings as strings and the topics as an array
    of strings (other members do not matter). *)
Definition carries (body : json) (problem_data : ProblemCreate.t) : Prop :=
  ∃ ms,
    body = JObject ms ∧
    member "title" ms = Some (JString (ProblemCreate.title problem_data)) ∧
    member "platform" ms = Some (JString (ProblemCreate.platform problem_data)) ∧
    member "difficulty" ms = Some (JString (ProblemCreate.difficulty problem_data)) ∧
    member "topics" ms = Some (JArray (JString <$> ProblemCreate.topics problem_data)) ∧
    member "date_completed" ms
      = Some (JString (ProblemCreate.date_completed problem_data)).

(** The caller's problems as stored, oldest first. *)
Definition owned (collection : list Problem.t) (user_id : string) : list Problem.t :=
  filter (λ p, Problem.user_id p = user_id) collection.

(** [db'] holds everything [db] holds, in the same places. *)
Definition extends (db db' : Db) : Prop :=
  users db `prefix_of` users db' ∧ problems db `prefix_of` problems db'.

Definition unique_usernames (db : Db) : Prop :=
  NoDup (UserDoc.username <$> users db).

(** ** Facts about the Python building blocks *)

Section stable_sort_facts.
Context {A : Type} (before : A → A → bool).

Lemma insert_stable_Permutation (x : A) (l : list A) :
  insert_stable before x l ≡ₚ x :: l.
Proof.
  induction l as [|y l IH]; simpl; [done|].
  destruct (before y x); [|done].
  rewrite IH. apply Permutation_swap.
Qed.

Lemma sorted_Permutation (l : list A) : sorted before l ≡ₚ l.
Proof.
  induction l as [|x l IH]; simpl; [done|].
  by rewrite insert_stable_Permutation, IH.
Qed.


Lemma elem_of_sorted (x : A) (l : list A) : x ∈ sorted before l ↔ x ∈ l.
Proof. by rewrite sorted_Permutation. Qed.



(** The output is ordered as soon as [before] is asymmetric and its
    complement transitive. *)
Hypothesis before_asym : ∀ a b, before a b = true → before b a = false.
Hypothesis not_before_trans :
  ∀ a b c, before b a = false → before c b = false → before c a = false.

Lemma insert_stable_StronglySorted (x : A) (l : list A) :
  StronglySorted (λ a b, before b a = false) l →
  StronglySorted (λ a b, before b a = false) (insert_stable before x l).
Proof.
  induction 1 as [|y l Hl IH Hy]; simpl.
  - repeat constructor.
  - destruct (before y x) eqn:Hyx.
    + constructor; [done|].
      apply Forall_forall. intros z Hz.
      rewrite insert_stable_Permutation in Hz.
      apply elem_of_cons in Hz as [->|Hz]; [by apply before_asym|].
      by eapply Forall_forall in Hy.
    + constructor; [by constructor|].
      constructor; [done|].
      eapply Forall_impl; [exact Hy|]. simpl. intros z Hz.
      by eapply not_before_trans.
Qed.

Lemma sorted_StronglySorted (l : list A) :
  StronglySorted (λ a b, before b a = false) (sorted before l).
Proof.
  induction l as [|x l IH]; simpl; [constructor|].
  by apply insert_stable_StronglySorted.
Qed.

End stable_sort_facts.

(** [str] comparison is a strict total order. *)
Lemma str_compare_OT (a b : string) : String.compare a b = String_as_OT.compare a b.
Proof.
  revert b. induction a as [|x a IH]; intros [|y b]; simpl; try done.
Qed.

Lemma str_ltb_lt (a b : string) : String.ltb a b = true ↔ String_as_OT.lt a b.
Proof.
  unfold String.ltb, String_as_OT.lt. rewrite str_compare_OT.
  destruct (String_as_OT.compare a b); split; congruence.
Qed.

Lemma str_ltb_irrefl (a : string) : String.ltb a a = false.
Proof.
  apply not_true_is_false. rewrite str_ltb_lt.
  apply (StrictOrder_Irreflexive (R:=String_as_OT.lt)).
Qed.

Lemma str_ltb_trans (a b c : string) :
  String.ltb a b = true → String.ltb b c = true → String.ltb a c = true.
Proof.
  rewrite !str_ltb_lt. apply (StrictOrder_Transitive (R:=String_as_OT.lt)).
Qed.

Lemma str_ltb_total (a b : string) :
  String.ltb a b = true ∨ a = b ∨ String.ltb b a = true.
Proof.
  rewrite !str_ltb_lt.
  destruct (String_as_OT.compare_spec a b); auto.
Qed.

Lemma str_ltb_asym (a b : string) : String.ltb a b = true → String.ltb b a = false.
Proof.
  intros Hab. apply not_true_is_false. intros Hba.
  pose proof (str_ltb_trans _ _ _ Hab Hba) as Haa.
  by rewrite str_ltb_irrefl in Haa.
Qed.

Lemma str_not_ltb (a b : string) : String.ltb a b = false ↔ a = b ∨ String.ltb b a = true.
Proof.
  split.
  - intros Hab. destruct (str_ltb_total a b) as [?|[?|?]]; [congruence|auto..].
  - intros [->|Hba]; [apply str_ltb_irrefl|by apply str_ltb_asym].
Qed.

Lemma str_desc_asym (a b : string) : str_desc a b = true → str_desc b a = false.
Proof. apply str_ltb_asym. Qed.

Lemma str_desc_not_trans (a b c : string) :
  str_desc b a = false → str_desc c b = false → str_desc c a = false.
Proof.
  unfold str_desc. rewrite !str_not_ltb.
  intros [?|Hba] [?|Hcb]; subst; auto.
  right. by eapply str_ltb_trans.
Qed.

#[local] Instance str_desc_antisymm : AntiSymm (=) (λ a b, str_desc b a = false).
Proof.
  intros a b. unfold str_desc. rewrite !str_not_ltb.
  intros [?|Hab] [?|Hba]; try done.
  apply str_ltb_asym in Hab. congruence.
Qed.

(** The enumeration order of a [set] does not show after sorting. *)
Lemma sorted_desc_enumeration (l l' : list string) :
  l ≡ₚ l' → sorted_reverse_str l = sorted_reverse_str l'.
Proof.
  intros Hperm. unfold sorted_reverse_str.
  apply (StronglySorted_unique (λ a b, str_desc b a = false)).
  - apply sorted_StronglySorted; [apply str_desc_asym|apply str_desc_not_trans].
  - apply sorted_StronglySorted; [apply str_desc_asym|apply str_desc_not_trans].
  - by rewrite !sorted_Permutation.
Qed.


Lemma StronglySorted_NoDup_strict (l : list string) :
  NoDup l →
  StronglySorted (λ a b, str_desc b a = false) l →
  StronglySorted (λ a b, String.ltb b a = true) l.
Proof.
  intros Hnd Hs. induction Hs as [|x l Hs IH Hx]; [constructor|].
  apply NoDup_cons in Hnd as [Hx' Hnd].
  constructor; [auto|].
  apply Forall_forall. intros y Hy.
  eapply Forall_forall in Hx; [|done].
  unfold str_desc in Hx. apply str_not_ltb in Hx as [->|?]; done.
Qed.


(** ** ISO dates order as the strings that write them *)

Module Iso8601_facts.
Import Iso8601.

Lemma days_from_civil_closed (y m d : Z) :
  days_from_civil y m d =
    year_days (fiscal_year y m) + month_start (fiscal_month m) + d - 1 - 719468.
Proof.
  unfold days_from_civil, year_days, fiscal_year, fiscal_month, month_start. cbv zeta.
  set (Y := if m <=? 2 then y - 1 else y).
  set (doy := (153 * _ + 2) / 5).
  assert ((Y - Y / 400 * 400) / 4 = Y / 4 - 100 * (Y / 400)) as ->.
  { replace (Y - Y / 400 * 400) with (Y + (- (100 * (Y / 400))) * 4) by lia.
    rewrite Z.div_add by lia. lia. }
  assert ((Y - Y / 400 * 400) / 100 = Y / 100 - 4 * (Y / 400)) as ->.
  { replace (Y - Y / 400 * 400) with (Y + (- (4 * (Y / 400))) * 100) by lia.
    rewrite Z.div_add by lia. lia. }
  lia.
Qed.

Lemma is_leap_year_days (y : Z) :
  (if is_leap y then 1 else 0) = year_days y - year_days (y - 1) - 365.
Proof.
  unfold is_leap, year_days.
  destruct (Z.eqb_spec (y mod 4) 0), (Z.eqb_spec (y mod 100) 0), (Z.eqb_spec (y mod 400) 0);
    cbn [andb orb negb]; Z.div_mod_to_equations; lia.
Qed.

Lemma year_days_mono (y y' : Z) : y < y' → year_days y + 365 ≤ year_days y'.
Proof. unfold year_days. Z.div_mod_to_equations. lia. Qed.

Lemma month_cases (m : Z) :
  1 ≤ m ≤ 12 →
  m = 1 ∨ m = 2 ∨ m = 3 ∨ m = 4 ∨ m = 5 ∨ m = 6 ∨ m = 7 ∨ m = 8 ∨ m = 9 ∨ m = 10 ∨
  m = 11 ∨ m = 12.
Proof. lia. Qed.

(** A valid day stays within its month: before the start of the next
    month, and within February's 28 or 29 days. *)
Lemma day_in_month (y m d : Z) :
  valid_date y m d →
  let mp := fiscal_month m in
  0 ≤ mp ≤ 11 ∧ 1 ≤ d ∧
  (mp < 11 → month_start mp + d ≤ month_start (mp + 1)) ∧
  (mp = 11 → m = 2 ∧ d ≤ 28 + (if is_leap y then 1 else 0)).
Proof.
  intros [Hm [Hd1 Hd]].
  apply month_cases in Hm.
  destruct Hm as [->|[->|[->|[->|[->|[->|[->|[->|[->|[->|[->| ->]]]]]]]]]]];
    lazy beta iota delta [days_in_month Z.eqb Pos.eqb orb] in Hd;
    vm_compute fiscal_month; vm_compute month_start;
    (split; [lia|]); (split; [done|]); (split; intros ?);
    destruct (is_leap y); try split; lia.
Qed.

Lemma days_from_civil_lt (y m d y' m' d' : Z) :
  valid_date y m d → valid_date y' m' d' →
  earlier (y, m, d) (y', m', d') →
  days_from_civil y m d < days_from_civil y' m' d'.
Proof.
  intros Hv Hv' Hlt.
  pose proof (proj1 Hv) as Hm. pose proof (proj1 Hv') as Hm'.
  apply day_in_month in Hv as (Hmp & Hd & Hin & Hfeb).
  apply day_in_month in Hv' as (Hmp' & Hd' & Hin' & Hfeb').
  rewrite !days_from_civil_closed.
  set (Y := fiscal_year y m) in *. set (Y' := fiscal_year y' m') in *.
  set (mp := fiscal_month m) in *. set (mp' := fiscal_month m') in *.
  assert (Y < Y' ∨ (Y = Y' ∧ (mp < mp' ∨ (mp = mp' ∧ d < d')))) as Hfiscal.
  { subst Y Y' mp mp'. unfold fiscal_year, fiscal_month. simpl in Hlt.
    destruct (Z.leb_spec m 2), (Z.ltb_spec 2 m), (Z.leb_spec m' 2), (Z.ltb_spec 2 m'); lia. }
  assert (∀ a b, 0 ≤ a ≤ b → 0 ≤ month_start a ≤ month_start b) as Hstart.
  { intros a b Hab. unfold month_start. Z.div_mod_to_equations. lia. }
  destruct Hfiscal as [HY|[HY [Hmp_lt|[Hmp_eq Hd_lt]]]].
  - assert (month_start mp + d ≤ 365 + (if is_leap (Y + 1) then 1 else 0)) as Hyear.
    { destruct (decide (mp = 11)) as [Hmp11|Hmp11].
      - destruct (Hfeb Hmp11) as [-> Hd29].
        replace (Y + 1) with y by (subst Y; unfold fiscal_year; simpl; lia).
        rewrite Hmp11. change (month_start 11) with 337. lia.
      - pose proof (Hstart (mp + 1) 11 ltac:(lia)) as Hle.
        change (month_start 11) with 337 in Hle.
        destruct (is_leap (Y + 1)); lia. }
    pose proof (is_leap_year_days (Y + 1)) as Hleap.
    replace (Y + 1 - 1) with Y in Hleap by lia.
    assert (year_days (Y + 1) ≤ year_days Y') as Hnext.
    { destruct (decide (Y + 1 = Y')) as [->|]; [lia|].
      pose proof (year_days_mono (Y + 1) Y'). lia. }
    pose proof (Hstart 0 mp' ltac:(lia)). lia.
  - pose proof (Hstart (mp + 1) mp' ltac:(lia)). rewrite HY. lia.
  - rewrite HY, Hmp_eq. lia.
Qed.


Lemma digit_value_bounds (a : ascii) (v : Z) : digit_value a = Some v → 0 ≤ v ≤ 9.
Proof.
  unfold digit_value.
  destruct (Z.leb_spec 48 (Z.of_N (N_of_ascii a))), (Z.leb_spec (Z.of_N (N_of_ascii a)) 57);
    simpl; intros [= <-]; lia.
Qed.

Lemma digit_compare (a b : ascii) (va vb : Z) :
  digit_value a = Some va → digit_value b = Some vb →
  Ascii.compare a b = (va ?= vb).
Proof.
  unfold digit_value, Ascii.compare.
  destruct (_ && _); [|done]. destruct (_ && _); [|done].
  intros [= <-] [= <-].
  rewrite (Z.compare_sub (_ - 48)).
  replace (Z.of_N (N_of_ascii a) - 48 - (Z.of_N (N_of_ascii b) - 48))
    with (Z.of_N (N_of_ascii a) - Z.of_N (N_of_ascii b)) by lia.
  rewrite <- Z.compare_sub. symmetry. apply N2Z.inj_compare.
Qed.

Lemma parse_inv (s : string) (n : Z) :
  parse s = Some n →
  ∃ c v,
    s = date_text c ∧ Forall2 (λ a x, digit_value a = Some x) c v ∧
    match v with
    | [y1; y2; y3; y4; m1; m2; d1; d2] =>
        let y := 1000 * y1 + 100 * y2 + 10 * y3 + y4 in
        let m := 10 * m1 + m2 in
        let d := 10 * d1 + d2 in
        valid_date y m d ∧ n = days_from_civil y m d
    | _ => False
    end.
Proof.
  pose proof (string_of_list_ascii_of_string s) as Hs. unfold parse.
  destruct (list_ascii_of_string s)
    as [|y1 [|y2 [|y3 [|y4 [|dash1 [|m1 [|m2 [|dash2 [|d1 [|d2 [|]]]]]]]]]]]; try done.
  destruct (Ascii.eqb_spec dash1 "-") as [->|]; [|done].
  destruct (Ascii.eqb_spec dash2 "-") as [->|]; [|done].
  cbn [andb number].
  destruct (digit_value y1) as [vy1|] eqn:Hy1; [|done].
  destruct (digit_value y2) as [vy2|] eqn:Hy2; [|done].
  destruct (digit_value y3) as [vy3|] eqn:Hy3; [|done].
  destruct (digit_value y4) as [vy4|] eqn:Hy4; [|done].
  destruct (digit_value m1) as [vm1|] eqn:Hm1; [|done].
  destruct (digit_value m2) as [vm2|] eqn:Hm2; [|done].
  destruct (digit_value d1) as [vd1|] eqn:Hd1; [|done].
  destruct (digit_value d2) as [vd2|] eqn:Hd2; [|done].
  cbn [mbind option_bind].
  set (y := 10 * (10 * (10 * (10 * 0 + vy1) + vy2) + vy3) + vy4).
  set (m := 10 * (10 * 0 + vm1) + vm2).
  set (d := 10 * (10 * 0 + vd1) + vd2).
  destruct (Z.leb_spec 1 y); [|done].
  destruct (Z.leb_spec 1 m); [|done].
  destruct (Z.leb_spec m 12); [|done].
  destruct (Z.leb_spec 1 d); [|done].
  destruct (Z.leb_spec d (days_in_month y m)); [|done].
  cbn [andb]. intros [= <-].
  exists [y1; y2; y3; y4; m1; m2; d1; d2], [vy1; vy2; vy3; vy4; vm1; vm2; vd1; vd2].
  split; [by rewrite <- Hs|]. split; [by repeat constructor|].
  cbv zeta.
  replace (1000 * vy1 + 100 * vy2 + 10 * vy3 + vy4) with y by (subst y; lia).
  replace (10 * vm1 + vm2) with m by (subst m; lia).
  replace (10 * vd1 + vd2) with d by (subst d; lia).
  by repeat split.
Qed.

Ltac digits_of H :=
  repeat match type of H with
  | Forall2 _ _ (_ :: _) =>
      let a := fresh "a" in let Ha := fresh "Ha" in
      apply Forall2_cons_inv_r in H as (a & ? & Ha & H & ->);
      pose proof (digit_value_bounds _ _ Ha)
  | Forall2 _ _ [] => apply Forall2_nil_inv_r in H as ->
  end.

Lemma parse_lt (s1 s2 : string) (n1 n2 : Z) :
  parse s1 = Some n1 → parse s2 = Some n2 → String.ltb s1 s2 = true → n1 < n2.
Proof.
  intros (c1 & v1 & -> & Hc1 & Hv1)%parse_inv (c2 & v2 & -> & Hc2 & Hv2)%parse_inv.
  destruct v1 as [|y1 [|y2 [|y3 [|y4 [|m1 [|m2 [|d1 [|d2 [|]]]]]]]]]; try done.
  destruct v2 as [|y1' [|y2' [|y3' [|y4' [|m1' [|m2' [|d1' [|d2' [|]]]]]]]]]; try done.
  destruct Hv1 as [Hvalid1 ->]. destruct Hv2 as [Hvalid2 ->].
  digits_of Hc1. digits_of Hc2.
  unfold String.ltb, date_text. cbn [string_of_list_ascii String.compare].
  repeat match goal with
  | Ha : digit_value ?a = Some _, Hb : digit_value ?b = Some _
    |- context [Ascii.compare ?a ?b] => rewrite (digit_compare a b _ _ Ha Hb)
  end.
  change (Ascii.compare "-" "-") with Eq. cbv iota.
  intros Hlt. apply days_from_civil_lt; [done..|].
  unfold earlier.
  repeat match type of Hlt with
  | context [?x ?= ?y] => destruct (Z.compare_spec x y); try done
  end; lia.
Qed.

End Iso8601_facts.

Section streak_facts.
Context `{Libs}.

Lemma completion_dates_distinct_desc (problems : list Problem.t) :
  distinct_desc (Problem.date_completed <$> problems) (completion_dates problems).
Proof.
  unfold completion_dates, sorted_reverse_str, set_elements. split.
  - apply StronglySorted_NoDup_strict.
    + rewrite sorted_Permutation. apply NoDup_remove_dups.
    + apply sorted_StronglySorted; [apply str_desc_asym|apply str_desc_not_trans].
  - intros s. by rewrite elem_of_sorted, elem_of_remove_dups.
Qed.


Lemma streak_loop_spec (today : Z) (dates : list string) (days : list Z) :
  parsed dates days →
  ∀ i acc, ∃ k,
    streak_loop today i acc dates = Return (acc + k)%nat ∧
    (∀ j, (j < k)%nat → days !! j = Some (today - Z.of_nat (i + j))) ∧
    (∀ m, (∀ j, (j < m)%nat → days !! j = Some (today - Z.of_nat (i + j))) → (m ≤ k)%nat).
Proof.
  induction 1 as [|s d dates days Hsd Hrest IH]; intros i acc.
  - exists 0%nat. split; [by rewrite Nat.add_0_r|]. split; [lia|].
    intros [|m] Hm; [lia|]. specialize (Hm 0%nat ltac:(lia)). done.
  - simpl. rewrite Hsd. destruct (d =? today - Z.of_nat i) eqn:Hd.
    + apply Z.eqb_eq in Hd. destruct (IH (S i) (S acc)) as (k & Hk & Hrun & Hmax).
      exists (S k). split; [by rewrite Hk, Nat.add_succ_r|]. split.
      * intros [|j] Hj; simpl.
        -- by rewrite Nat.add_0_r, Hd.
        -- rewrite Hrun by lia. do 2 f_equal. lia.
      * intros [|m] Hm; [lia|]. apply le_n_S, Hmax. intros j Hj.
        specialize (Hm (S j) ltac:(lia)). simpl in Hm. rewrite Hm. do 2 f_equal. lia.
    + apply Z.eqb_neq in Hd. exists 0%nat.
      split; [by rewrite Nat.add_0_r|]. split; [lia|].
      intros [|m] Hm; [lia|]. specialize (Hm 0%nat ltac:(lia)). simpl in Hm.
      rewrite Nat.add_0_r in Hm. congruence.
Qed.

Lemma well_dated_parsed (problems : list Problem.t) :
  Forall well_dated problems →
  ∃ days, parsed (completion_dates problems) days.
Proof.
  intros Hwd.
  assert (Forall (λ s, is_Some (date_fromisoformat s)) (completion_dates problems)) as Hall.
  { apply Forall_forall. intros s Hs.
    apply completion_dates_distinct_desc in Hs.
    apply list_elem_of_fmap in Hs as (p & -> & Hp).
    by eapply Forall_forall in Hwd. }
  induction Hall as [|s l [d Hd] _ [days IH]].
  - exists []. constructor.
  - exists (d :: days). by constructor.
Qed.

Lemma parsed_elem_of (dates : list string) (days : list Z) (d : Z) :
  parsed dates days →
  d ∈ days ↔ ∃ s, s ∈ dates ∧ date_fromisoformat s = Some d.
Proof.
  induction 1 as [|s d' dates days Hsd Hrest IH].
  - split; [by intros ?%elem_of_nil|by intros (s & ?%elem_of_nil & _)].
  - rewrite elem_of_cons, IH. split.
    + intros [->|(s' & Hs' & Hd)]; [exists s; split; [left|done]|].
      exists s'. split; [by right|done].
    + intros (s' & [->|Hs']%elem_of_cons & Hd); [left; congruence|right; eauto].
Qed.


End streak_facts.

(** ** The streak *)

Section streak.
Context `{Libs}.

Lemma compute_streak_loop (today : Z) (problems : list Problem.t) :
  compute_streak today problems = streak_loop today 0 0 (completion_dates problems).
Proof. by destruct problems. Qed.

Lemma stats_of_streak (today : Z) (problems : list Problem.t) (n : nat) :
  compute_streak today problems = Return n →
  ∃ st, stats_of today problems = Return st ∧ Stats.current_streak st = n.
Proof. intros Hn. unfold stats_of. rewrite Hn. eauto. Qed.


Lemma most_recent_head (problems : list Problem.t) (s : string) :
  most_recent (Problem.date_completed <$> problems) s →
  ∃ rest, completion_dates problems = s :: rest.
Proof.
  intros [Hin Hmax].
  destruct (completion_dates_distinct_desc problems) as [Hsorted Helem].
  apply Helem in Hin.
  destruct (completion_dates problems) as [|h rest]; [by apply elem_of_nil in Hin|].
  exists rest. f_equal.
  apply elem_of_cons in Hin as [->|Hin]; [done|].
  apply StronglySorted_inv in Hsorted as [_ Hh].
  eapply Forall_forall in Hh; [|done].
  rewrite Hmax in Hh; [done|].
  apply Helem. left.
Qed.

(** C2: when the most recent [date_completed] of a (non-empty) list of
    problems is a date other than today, the statistics are returned
    with [current_streak = 0]; in particular a completion yesterday
    does not keep a streak alive. *)
Theorem no_grace_period (today : Z) (problems : list Problem.t) (s : string) (d : Z) :
  problems ≠ [] →
  most_recent (Problem.date_completed <$> problems) s →
  date_fromisoformat s = Some d →
  d ≠ today →
  ∃ st, stats_of today problems = Return st ∧ Stats.current_streak st = 0%nat.
Proof.
  intros _ Hs Hd Hne.
  apply stats_of_streak. rewrite compute_streak_loop.
  destruct (most_recent_head _ _ Hs) as [rest ->].
  simpl. rewrite Hd.
  destruct (Z.eqb_spec d (today - Z.of_nat 0)); [lia|done].
Qed.

(** The same in terms of dates: when the library orders ISO strings as
    dates and the latest completion date is not today, the streak is 0. *)
Lemma no_grace_period_by_date (today : Z) (problems : list Problem.t) (p : Problem.t)
    (d : Z) :
  order_preserving →
  Forall well_dated problems →
  p ∈ problems →
  date_fromisoformat (Problem.date_completed p) = Some d →
  (∀ p' d', p' ∈ problems →
            date_fromisoformat (Problem.date_completed p') = Some d' → d' ≤ d) →
  d ≠ today →
  ∃ st, stats_of today problems = Return st ∧ Stats.current_streak st = 0%nat.
Proof.
  intros Hord Hwd Hp Hd Hmax Hne.
  apply stats_of_streak. rewrite compute_streak_loop.
  destruct (completion_dates_distinct_desc problems) as [Hsorted Helem].
  assert (Problem.date_completed p ∈ completion_dates problems) as Hin.
  { apply Helem, list_elem_of_fmap. eauto. }
  destruct (completion_dates problems) as [|s rest]; [by apply elem_of_nil in Hin|].
  assert (s ∈ Problem.date_completed <$> problems) as Hs by (apply Helem; left).
  apply list_elem_of_fmap in Hs as (q & -> & Hq).
  pose proof Hq as [d0 Hd0]%(proj1 (Forall_forall _ _) Hwd).
  assert (d0 = d) as ->.
  { apply elem_of_cons in Hin as [Heq|Hin]; [congruence|].
    apply StronglySorted_inv in Hsorted as [_ Hhead].
    eapply Forall_forall in Hhead; [|done].
    pose proof (Hord _ _ _ _ Hd Hd0 Hhead). pose proof (Hmax _ _ Hq Hd0). lia. }
  simpl. rewrite Hd0.
  destruct (Z.eqb_spec d (today - Z.of_nat 0)); [lia|done].
Qed.


End streak.

(** ** The topic distribution *)



Section tally.

Lemma table_cons (f : string → nat) (k : string) (ks : list string) :
  table f (k :: ks) = (k, f k) :: table f ks.
Proof. done. Qed.

Lemma table_snoc (f : string → nat) (k : string) (ks : list string) :
  table f (ks ++ [k]) = table f ks ++ [(k, f k)].
Proof. unfold table. by rewrite fmap_app. Qed.

Ltac dict_simpl := rewrite ?table_cons; cbn [dict_get dict_set app].

Lemma dict_get_table (f : string → nat) (ks : list string) (t : string) :
  dict_get t 0 (table f ks) = if decide (t ∈ ks) then f t else 0%nat.
Proof.
  induction ks as [|k ks IH]; dict_simpl.
  - by rewrite decide_False by apply not_elem_of_nil.
  - destruct (String.eqb_spec k t) as [->|Hne].
    + by rewrite decide_True by left.
    + rewrite IH. destruct (decide (t ∈ ks)).
      * by rewrite decide_True by by right.
      * rewrite decide_False; [done|]. rewrite elem_of_cons. naive_solver.
Qed.

Lemma table_ext (f g : string → nat) (ks : list string) :
  (∀ k, k ∈ ks → f k = g k) → table f ks = table g ks.
Proof.
  intros Hfg. unfold table. apply list_fmap_ext.
  intros i k Hk. rewrite Hfg; [done|]. by eapply list_elem_of_lookup_2.
Qed.

Lemma dict_set_table (f g : string → nat) (ks : list string) (t : string) (v : nat) :
  NoDup ks →
  g t = v → (∀ k, k ≠ t → g k = f k) →
  dict_set t v (table f ks) =
    if decide (t ∈ ks) then table g ks else table g (ks ++ [t]).
Proof.
  intros Hnd Hgt Hg. induction Hnd as [|k ks Hk Hnd IH]; dict_simpl.
  - rewrite decide_False by apply not_elem_of_nil. by rewrite <- Hgt.
  - destruct (String.eqb_spec k t) as [->|Hne].
    + rewrite decide_True by left. dict_simpl. rewrite Hgt. f_equal.
      apply table_ext. intros k' Hk'. symmetry. apply Hg. by intros ->.
    + rewrite IH, <- (Hg k) by done. destruct (decide (t ∈ ks)).
      * by rewrite decide_True by by right.
      * rewrite decide_False; [done|]. rewrite elem_of_cons. naive_solver.
Qed.

Lemma elem_of_first_seen (l : list string) (x : string) : x ∈ first_seen l ↔ x ∈ l.
Proof.
  induction l as [|y l IH]; cbn [first_seen]; [done|].
  rewrite !elem_of_cons, list_elem_of_filter, IH.
  destruct (decide (x = y)); naive_solver.
Qed.

Lemma NoDup_first_seen (l : list string) : NoDup (first_seen l).
Proof.
  induction l as [|y l IH]; cbn [first_seen]; constructor.
  - rewrite list_elem_of_filter. naive_solver.
  - by apply NoDup_filter.
Qed.

Lemma first_seen_snoc (l : list string) (t : string) :
  first_seen (l ++ [t]) = if decide (t ∈ l) then first_seen l else first_seen l ++ [t].
Proof.
  induction l as [|y l IH]; cbn [first_seen app].
  - by rewrite decide_False by apply not_elem_of_nil.
  - rewrite IH. destruct (decide (t ∈ l)) as [Hin|Hin].
    + by rewrite decide_True by by right.
    + destruct (decide (t = y)) as [->|Hne].
      * rewrite decide_True by left. rewrite filter_app, filter_cons.
        rewrite decide_False by naive_solver. by rewrite filter_nil, app_nil_r.
      * rewrite decide_False by (rewrite elem_of_cons; naive_solver).
        rewrite filter_app, filter_cons. by rewrite decide_True by done.
Qed.

Lemma occurrences_snoc (x t : string) (l : list string) :
  occurrences x (l ++ [t]) = (occurrences x l + if decide (t = x) then 1 else 0)%nat.
Proof.
  unfold occurrences. rewrite filter_app, length_app, filter_cons, filter_nil.
  by destruct (decide (t = x)).
Qed.

Lemma occurrences_not_elem (x : string) (l : list string) : x ∉ l → occurrences x l = 0%nat.
Proof.
  intros Hx. unfold occurrences.
  destruct (filter _ l) as [|y l'] eqn:Hf; [done|].
  assert (y ∈ filter (λ y, y = x) l) as Hy by (rewrite Hf; left).
  apply list_elem_of_filter in Hy as [-> ?]. done.
Qed.

Lemma tally_table (l : list string) :
  fold_left incr l [] = table (λ t, occurrences t l) (first_seen l).
Proof.
  induction l as [|t l IH] using rev_ind; [done|].
  rewrite fold_left_app, IH. cbn [fold_left]. unfold incr.
  rewrite dict_get_table.
  rewrite (dict_set_table _ (λ k, occurrences k (l ++ [t]))).
  - rewrite first_seen_snoc.
    destruct (decide (t ∈ l)), (decide (t ∈ first_seen l)) as [Hfs|Hfs];
      rewrite elem_of_first_seen in Hfs; done.
  - apply NoDup_first_seen.
  - rewrite occurrences_snoc, decide_True by done.
    destruct (decide (t ∈ first_seen l)) as [Hfs|Hfs]; [done|].
    rewrite elem_of_first_seen in Hfs. by rewrite occurrences_not_elem.
  - intros k Hk. rewrite occurrences_snoc, decide_False by done. lia.
Qed.

Lemma count_topics_fold (problems : list Problem.t) (d : list (string * nat)) :
  fold_left (λ topic_count problem, fold_left incr (Problem.topics problem) topic_count)
            problems d
  = fold_left incr (all_topics problems) d.
Proof.
  revert d. induction problems as [|p ps IH]; intros d; [done|].
  cbn [fold_left]. rewrite IH. unfold all_topics. cbn [fmap list_fmap mjoin list_join].
  by rewrite fold_left_app.
Qed.

Lemma count_topics_table (problems : list Problem.t) :
  count_topics problems =
    table (λ t, occurrences t (all_topics problems)) (first_seen (all_topics problems)).
Proof. unfold count_topics. by rewrite <- tally_table, <- count_topics_fold. Qed.

End tally.




Section topics.
Context `{Libs}.



(** The explicit guard of the percentage: nothing is divided by zero. *)
Lemma percentage_of_none_solved (count : nat) : percentage_of count 0 = S754_zero false.
Proof. done. Qed.



End topics.

(** ** Bearer tokens *)

Section tokens.
Context `{Libs}.
Variable SECRET_KEY : string.

Lemma get_current_user_valid (env : Env) (scheme : string) (token : jwt) (user_id : string) :
  valid_token SECRET_KEY (now env) token user_id →
  get_current_user SECRET_KEY env (HTTPAuthorizationCredentials.mk scheme token)
    = Return user_id.
Proof.
  intros (payload & -> & Hexp & Hsub).
  unfold get_current_user, Jwt.decode. simpl.
  rewrite String.eqb_refl.
  destruct (exp payload) as [e|] eqn:He.
  - specialize (Hexp e eq_refl).
    destruct (Z.leb_spec e (now env)); [lia|]. by rewrite Hsub.
  - by rewrite Hsub.
Qed.

Lemma get_current_user_returns (env : Env) (credentials : HTTPAuthorizationCredentials.t)
    (user_id : string) :
  get_current_user SECRET_KEY env credentials = Return user_id →
  valid_token SECRET_KEY (now env)
              (HTTPAuthorizationCredentials.credentials credentials) user_id.
Proof.
  unfold get_current_user, Jwt.decode.
  destruct (HTTPAuthorizationCredentials.credentials credentials) as [raw|payload sg];
    [done|].
  destruct (String.eqb_spec sg (hs256 SECRET_KEY payload)) as [->|]; [|done].
  intros Hret. exists payload. split; [done|].
  destruct (exp payload) as [e|] eqn:He.
  - destruct (Z.leb_spec e (now env)); [done|].
    destruct (sub payload) as [uid|] eqn:Hsub; [|done].
    split; [|congruence]. intros e' [= <-]. lia.
  - destruct (sub payload) as [uid|] eqn:Hsub; [|done].
    split; [done|congruence].
Qed.

(** The three ways verification ends: the subject, the 401 of the
    expiry handler, or the [AttributeError] of the handler after it. *)
Lemma get_current_user_status (env : Env) (credentials : HTTPAuthorizationCredentials.t) :
  (∃ user_id, get_current_user SECRET_KEY env credentials = Return user_id) ∨
  get_current_user SECRET_KEY env credentials
    = Raise (HTTPException 401 "Token has expired") ∨
  get_current_user SECRET_KEY env credentials = Raise (AttributeError "JWTError").
Proof.
  unfold get_current_user.
  destruct (Jwt.decode _ _ _) as [[]|payload]; [right; left; done|right; right; done|].
  destruct (sub payload); [left|right; right]; eauto.
Qed.

Lemma authenticated_rejects {A} (env : Env) (credentials : HTTPAuthorizationCredentials.t)
    (handler : string → Db → outcome A * Db) (db : Db) (e : exn) :
  get_current_user SECRET_KEY env credentials = Raise e →
  authenticated SECRET_KEY env credentials handler db = (Raise e, db).
Proof. intros Hraise. unfold authenticated. by rewrite Hraise. Qed.

Lemma authenticated_accepts {A} (env : Env) (credentials : HTTPAuthorizationCredentials.t)
    (handler : string → Db → outcome A * Db) (db : Db) (user_id : string) :
  get_current_user SECRET_KEY env credentials = Return user_id →
  authenticated SECRET_KEY env credentials handler db = handler user_id db.
Proof. intros Hret. unfold authenticated. by rewrite Hret. Qed.

(** C5: verification of a presented bearer token returns the subject of
    a valid token and answers 401 when the clock is past the expiry of
    a signed one.  Where the claim promises a 401 as well, for a
    signature that does not match, for a string that is no token and
    for a missing subject, the function raises [AttributeError]: the
    handler meant for these cases names [jwt.JWTError], which the
    library does not have.  So a request to /problems (GET or POST) or
    /stats whose token is not valid leaves the database as it was, but
    is answered 401 only when the token is a signed one past its
    expiry, and 500 otherwise. *)
Theorem bearer_verification (env : Env) (scheme : string) (token : jwt) :
  let credentials := HTTPAuthorizationCredentials.mk scheme token in
  let verdict := get_current_user SECRET_KEY env credentials in
  (∀ raw, token = NotJws raw → verdict = Raise (AttributeError "JWTError")) ∧
  (∀ payload signature, token = Jws payload signature →
     (signature ≠ hs256 SECRET_KEY payload →
        verdict = Raise (AttributeError "JWTError")) ∧
     (signature = hs256 SECRET_KEY payload →
        (∀ e, exp payload = Some e → e < now env →
           verdict = Raise (HTTPException 401 "Token has expired")) ∧
        ((∀ e, exp payload = Some e → now env < e) →
           (sub payload = None → verdict = Raise (AttributeError "JWTError")) ∧
           (∀ user_id, sub payload = Some user_id → verdict = Return user_id)))) ∧
  ((∀ user_id, ¬ valid_token SECRET_KEY (now env) token user_id) →
     ∀ body db,
       (verdict = Raise (HTTPException 401 "Token has expired") ∨
        verdict = Raise (AttributeError "JWTError")) ∧
       (post_problems SECRET_KEY env credentials body db).2 = db ∧
       (get_problems_route SECRET_KEY env credentials db).2 = db ∧
       (get_stats_route SECRET_KEY env credentials db).2 = db ∧
       status (post_problems SECRET_KEY env credentials body db).1 = status verdict ∧
       status (get_problems_route SECRET_KEY env credentials db).1 = status verdict ∧
       status (get_stats_route SECRET_KEY env credentials db).1 = status verdict ∧
       (verdict ≠ Raise (HTTPException 401 "Token has expired") → status verdict = 500)).
Proof.
  intros credentials verdict. split; [|split].
  - by intros raw ->.
  - intros payload sg ->. subst verdict credentials.
    unfold get_current_user, Jwt.decode. simpl. split.
    + intros Hsg. by destruct (String.eqb_spec sg (hs256 SECRET_KEY payload)).
    + intros ->. rewrite String.eqb_refl. split.
      * intros e -> He. by destruct (Z.leb_spec e (now env)); [|lia].
      * intros Hexp. destruct (exp payload) as [e|].
        -- specialize (Hexp e eq_refl).
           destruct (Z.leb_spec e (now env)); [lia|].
           split; [by intros ->|by intros uid ->].
        -- split; [by intros ->|by intros uid ->].
  - intros Hinvalid body db.
    destruct (get_current_user_status env credentials) as [[uid Hret]|Hraise].
    { apply get_current_user_returns in Hret. by apply Hinvalid in Hret. }
    assert (∃ e, verdict = Raise e) as [e He] by (destruct Hraise; eauto).
    unfold post_problems, get_problems_route, get_stats_route.
    rewrite !(authenticated_rejects _ _ _ _ e) by done.
    rewrite He. split; [by rewrite <- He|]. split_and!; try done.
    intros Hne. destruct Hraise as [Hexpired|Hattr].
    + fold verdict in Hexpired. by rewrite <- He in Hne.
    + fold verdict in Hattr. rewrite He in Hattr. by injection Hattr as ->.
Qed.

(** C6: a token issued for a user id carries that id as subject and an
    expiry thirty days after the issue time, and verifying it at any
    time before that expiry returns the same user id. *)
Theorem issue_verify_round_trip (env : Env) (user_id : string) :
  let token := create_access_token SECRET_KEY env (Claims (Some user_id) None) in
  let payload := Claims (Some user_id) (Some (now env + 30 * 86400)) in
  token = Jws payload (hs256 SECRET_KEY payload) ∧
  ∀ env' scheme,
    now env' < now env + 30 * 86400 →
    get_current_user SECRET_KEY env' (HTTPAuthorizationCredentials.mk scheme token)
      = Return user_id.
Proof.
  intros token payload. split; [done|].
  intros env' scheme Hbefore. apply get_current_user_valid.
  exists payload. split; [done|]. split; [|done].
  intros e [= <-]. done.
Qed.

End tokens.

(** ** The collections *)

Section collection_facts.
Context {D : Type} (matches : D → bool).

Lemma find_one_none (c : list D) :
  (∀ d, d ∈ c → matches d = false) → Collection.find_one matches c = None.
Proof.
  intros Hnone. unfold Collection.find_one.
  induction c as [|d c IH]; [done|].
  rewrite filter_cons. destruct (decide (matches d)) as [Hd|_].
  - rewrite Hnone in Hd by left. done.
  - apply IH. intros d' Hd'. apply Hnone. by right.
Qed.

Lemma find_one_first (l1 l2 : list D) (d : D) :
  (∀ d', d' ∈ l1 → matches d' = false) → matches d = true →
  Collection.find_one matches (l1 ++ d :: l2) = Some d.
Proof.
  intros Hl1 Hd. unfold Collection.find_one.
  induction l1 as [|d' l1 IH]; simpl.
  - rewrite filter_cons, decide_True; [done|]. by rewrite Hd.
  - rewrite filter_cons. destruct (decide (matches d')) as [Hd'|_].
    + rewrite Hl1 in Hd' by left. done.
    + apply IH. intros d'' Hd''. apply Hl1. by right.
Qed.

Lemma find_one_some (c : list D) (d : D) :
  d ∈ c → matches d = true → is_Some (Collection.find_one matches c).
Proof.
  intros Hin Hd. unfold Collection.find_one.
  destruct (filter matches c) as [|d' l] eqn:Hf; [|by eexists].
  assert (d ∈ filter matches c) as Hd'.
  { apply list_elem_of_filter. split; [by rewrite Hd|done]. }
  rewrite Hf in Hd'. by apply elem_of_nil in Hd'.
Qed.

Lemma count_documents_zero (c : list D) :
  (∀ d, d ∈ c → matches d = false) → Collection.count_documents matches c = 0%nat.
Proof.
  intros Hnone. unfold Collection.count_documents.
  destruct (filter matches c) as [|d l] eqn:Hf; [done|].
  assert (d ∈ filter matches c) as Hd by (rewrite Hf; left).
  apply list_elem_of_filter in Hd as [Hd Hin].
  rewrite Hnone in Hd by done. done.
Qed.

Lemma count_documents_pos (c : list D) (d : D) :
  d ∈ c → matches d = true → (0 < Collection.count_documents matches c)%nat.
Proof.
  intros Hin Hd. unfold Collection.count_documents.
  assert (d ∈ filter matches c) as Hd'.
  { apply list_elem_of_filter. split; [by rewrite Hd|done]. }
  destruct (filter matches c); [by apply elem_of_nil in Hd'|simpl; lia].
Qed.

End collection_facts.

(** ** Registration and login *)

Section accounts.
Context `{Libs}.
Variable SECRET_KEY : string.

Lemma by_username_true (name : string) (d : UserDoc.t) :
  by_username name d = true ↔ UserDoc.username d = name.
Proof. unfold by_username. apply String.eqb_eq. Qed.

Lemma by_username_false (name : string) (d : UserDoc.t) :
  by_username name d = false ↔ UserDoc.username d ≠ name.
Proof. unfold by_username. apply String.eqb_neq. Qed.

Lemma register_taken (env : Env) (user_data : UserRegister.t) (db : Db) (d : UserDoc.t) :
  d ∈ users db → UserDoc.username d = UserRegister.username user_data →
  register SECRET_KEY env user_data db
    = (Raise (HTTPException 400 "Username already registered"), db).
Proof.
  intros Hin Hname. unfold register.
  destruct (find_one_some (by_username (UserRegister.username user_data)) _ d Hin)
    as [d' ->]; [by apply by_username_true|done].
Qed.

(** C7: registering a username nobody holds answers 200 and adds
    exactly one user document, for that username; registering a
    username that is held answers 400 and leaves the database as it
    was, in particular on a second registration of the same name. *)
Theorem register_once_per_username (env : Env) (user_data : UserRegister.t) (db : Db) :
  let name := UserRegister.username user_data in
  (username_free (users db) name →
     ∃ token doc,
       register SECRET_KEY env user_data db
         = (Return token, {| users := users db ++ [doc]; problems := problems db |}) ∧
       status (register SECRET_KEY env user_data db).1 = 200 ∧
       UserDoc.username doc = name ∧
       ∀ env' user_data',
         UserRegister.username user_data' = name →
         let db' := (register SECRET_KEY env user_data db).2 in
         register SECRET_KEY env' user_data' db'
           = (Raise (HTTPException 400 "Username already registered"), db')) ∧
  (¬ username_free (users db) name →
     register SECRET_KEY env user_data db
       = (Raise (HTTPException 400 "Username already registered"), db)).
Proof.
  intros name. split.
  - intros Hfree.
    assert (Collection.find_one (by_username name) (users db) = None) as Hnone.
    { apply find_one_none. intros d Hd. apply by_username_false. by apply Hfree. }
    unfold register. fold name. rewrite Hnone. cbn [fst snd status].
    eexists _, _. split; [done|]. split; [done|]. split; [done|].
    intros env' user_data' Hname.
    eapply register_taken.
    + cbn [users]. unfold Collection.insert_one. apply elem_of_app. right. left.
    + by rewrite Hname.
  - intros Hheld.
    destruct (Collection.find_one (by_username name) (users db)) as [d|] eqn:Hfind.
    + unfold register. fold name. by rewrite Hfind.
    + exfalso. apply Hheld. intros d Hd Hname.
      destruct (find_one_some (by_username name) _ d Hd) as [d' Hd'];
        [by apply by_username_true|congruence].
Qed.

(** C8: login answers 401 when the username is not in the store and
    when the password does not verify against the stored hash;
    otherwise it answers 200 with a token whose subject is the stored
    user's id (and which verifies for that id). *)
Theorem login_checks_credentials (env : Env) (user_data : UserLogin.t) (db : Db) :
  let name := UserLogin.username user_data in
  let unauthorized := Raise (HTTPException 401 "Incorrect username or password") in
  (username_free (users db) name → login SECRET_KEY env user_data db = (unauthorized, db)) ∧
  (∀ doc, stored (users db) name doc →
     (verify_password (UserLogin.password user_data) (UserDoc.password doc) = false →
        login SECRET_KEY env user_data db = (unauthorized, db)) ∧
     (verify_password (UserLogin.password user_data) (UserDoc.password doc) = true →
        ∃ token payload signature,
          login SECRET_KEY env user_data db = (Return token, db) ∧
          status (login SECRET_KEY env user_data db).1 = 200 ∧
          Token.access_token token = Jws payload signature ∧
          sub payload = Some (UserDoc.id doc) ∧
          get_current_user SECRET_KEY env
            (HTTPAuthorizationCredentials.mk "Bearer" (Token.access_token token))
            = Return (UserDoc.id doc))).
Proof.
  intros name unauthorized. split.
  - intros Hfree. unfold login. fold name.
    rewrite find_one_none; [done|].
    intros d Hd. apply by_username_false. by apply Hfree.
  - intros doc (l1 & l2 & Husers & Hname & Hfirst).
    assert (Collection.find_one (by_username name) (users db) = Some doc) as Hfind.
    { rewrite Husers. apply find_one_first; [|by apply by_username_true].
      intros d' Hd'. apply by_username_false. by apply Hfirst. }
    unfold login. fold name. rewrite Hfind. split; intros ->; [done|].
    cbn [negb fst status]. eexists _, _, _.
    split; [done|]. split; [done|]. split; [done|]. split; [done|].
    cbn [Token.access_token User.id].
    apply get_current_user_valid. eexists. split; [done|]. split; [|done].
    intros e [= <-]. unfold timedelta_minutes, ACCESS_TOKEN_EXPIRE_MINUTES. lia.
Qed.

End accounts.

(** ** Problems and seed data *)

Section problems.
Context `{Libs}.
Variable SECRET_KEY : string.

Lemma by_user_id_true (user_id : string) (p : Problem.t) :
  by_user_id user_id p = true ↔ Problem.user_id p = user_id.
Proof. unfold by_user_id. apply String.eqb_eq. Qed.

Lemma by_user_id_false (user_id : string) (p : Problem.t) :
  by_user_id user_id p = false ↔ Problem.user_id p ≠ user_id.
Proof. unfold by_user_id. apply String.eqb_neq. Qed.

(** The invalid-creation request of the test suite passes validation. *)
Lemma validate_empty_title_and_topics :
  ProblemCreate.validate empty_title_and_topics
    = Some (ProblemCreate.mk "" "LeetCode" "Easy" [] "2024-01-15").
Proof. reflexivity. Qed.

(** C1 (as the code behaves): the handler stores a problem with an
    empty title and an empty topics list and answers 200 for it, where
    the claim asks for a validation error and an untouched store. *)
Theorem create_problem_accepts_empty (env : Env) (user_id : string) (db : Db) :
  let response := with_body empty_title_and_topics (create_problem env) user_id db in
  let problem := Problem.mk (uuid4 env 0) user_id "" "LeetCode" "Easy" [] "2024-01-15"
                            (now env) in
  status response.1 = 200 ∧
  response.1 = Return problem ∧
  problems response.2 = problems db ++ [problem] ∧
  response.2 ≠ db.
Proof.
  intros response problem. subst response. unfold with_body.
  rewrite validate_empty_title_and_topics. cbn [create_problem fst snd status problems].
  split; [done|]. split; [done|]. split; [done|].
  intros Heq. apply (f_equal (λ d, length (problems d))) in Heq.
  cbn [problems] in Heq. unfold Collection.insert_one in Heq.
  rewrite length_app in Heq. simpl in Heq. lia.
Qed.

Lemma seed_loop_app (env : Env) (user_id : string) (samples : list ProblemCreate.t) :
  ∀ n collection,
    seed_loop env user_id n samples collection
    = collection ++ imap (λ i, new_problem env (n + i) user_id) samples.
Proof.
  induction samples as [|problem_data samples IH]; intros n collection; simpl.
  - by rewrite app_nil_r.
  - rewrite IH. unfold Collection.insert_one. rewrite <- app_assoc. simpl.
    rewrite Nat.add_0_r. do 2 f_equal.
    apply imap_ext. intros i x _. simpl. f_equal. lia.
Qed.

(** C9: for a caller who already has a problem, /seed-data answers
    with the no-op message and leaves the database as it was; for a
    caller with none it appends exactly the ten sample problems, all
    owned by the caller; a second call therefore changes nothing. *)
Theorem seed_data_idempotent (env : Env) (credentials : HTTPAuthorizationCredentials.t)
    (user_id : string) (db : Db) :
  get_current_user SECRET_KEY env credentials = Return user_id →
  (has_problems (problems db) user_id →
     post_seed_data SECRET_KEY env credentials db
       = (Return (Message.mk "User already has problems"), db)) ∧
  (¬ has_problems (problems db) user_id →
     ∃ new,
       post_seed_data SECRET_KEY env credentials db
         = (Return (Message.mk "Seeded 10 sample problems"),
            {| users := users db; problems := problems db ++ new |}) ∧
       length new = 10%nat ∧
       Forall (λ p, Problem.user_id p = user_id) new ∧
       Problem.title <$> new = sample_titles) ∧
  (∀ env' credentials',
     get_current_user SECRET_KEY env' credentials' = Return user_id →
     let db' := (post_seed_data SECRET_KEY env credentials db).2 in
     post_seed_data SECRET_KEY env' credentials' db'
       = (Return (Message.mk "User already has problems"), db')).
Proof.
  intros Hauth.
  assert (∀ e c d, get_current_user SECRET_KEY e c = Return user_id →
            has_problems (problems d) user_id →
            post_seed_data SECRET_KEY e c d
              = (Return (Message.mk "User already has problems"), d)) as Hnoop.
  { intros e c d Hc (p & Hp & Hown). unfold post_seed_data.
    rewrite (authenticated_accepts _ _ _ _ _ user_id) by done.
    unfold seed_data.
    pose proof (count_documents_pos (by_user_id user_id) _ p Hp) as Hpos.
    destruct (Nat.ltb_spec 0 (Collection.count_documents (by_user_id user_id) (problems d)));
      [done|].
    rewrite by_user_id_true in Hpos. specialize (Hpos Hown). lia. }
  assert (¬ has_problems (problems db) user_id →
          post_seed_data SECRET_KEY env credentials db
            = (Return (Message.mk "Seeded 10 sample problems"),
               {| users := users db;
                  problems := problems db ++
                    imap (λ i, new_problem env (0 + i) user_id) (sample_problems env) |}))
    as Hseed.
  { intros Hnone. unfold post_seed_data.
    rewrite (authenticated_accepts _ _ _ _ _ user_id) by done.
    unfold seed_data. rewrite count_documents_zero.
    - cbn [Nat.ltb Nat.leb]. by rewrite seed_loop_app.
    - intros p Hp. apply by_user_id_false. intros Hown. apply Hnone. by exists p. }
  split; [by apply Hnoop|]. split.
  - intros Hnone. eexists. split; [by apply Hseed|].
    split; [done|]. split; [|done].
    repeat constructor.
  - intros env' credentials' Hauth' db'. apply Hnoop; [done|].
    destruct (decide (has_problems (problems db) user_id)) as [Hhas|Hnone].
    + subst db'. by rewrite Hnoop.
    + subst db'. rewrite Hseed by done. cbn [snd problems].
      eexists. split; [apply elem_of_app; right; left|done].
Qed.

End problems.

(** ** What the auth responses show *)

Section responses.
Context `{Libs}.
Variable SECRET_KEY : string.

Lemma register_response (env : Env) (user_data : UserRegister.t) (db db' : Db)
    (token : Token.t) :
  register SECRET_KEY env user_data db = (Return token, db') →
  token = token_for SECRET_KEY env (User.mk (uuid4 env 0) (UserRegister.username user_data) (now env)) ∧
  ∃ doc, users db' = users db ++ [doc] ∧ public doc = Token.user token ∧
         Collection.find_one (by_username (UserRegister.username user_data)) (users db) = None.
Proof.
  unfold register.
  destruct (Collection.find_one _ (users db)) as [d|]; [done|].
  intros [= <- <-]. split; [done|]. by eexists.
Qed.

Lemma login_response (env : Env) (user_data : UserLogin.t) (db db' : Db) (token : Token.t) :
  login SECRET_KEY env user_data db = (Return token, db') →
  ∃ doc, Collection.find_one (by_username (UserLogin.username user_data)) (users db)
           = Some doc ∧
         token = token_for SECRET_KEY env (public doc).
Proof.
  unfold login.
  destruct (Collection.find_one _ (users db)) as [doc|]; [|done].
  destruct (verify_password _ _); [|done].
  intros [= <- <-]. by exists doc.
Qed.

Lemma find_one_public (name : string) (users1 users2 : list UserDoc.t) :
  public <$> users1 = public <$> users2 →
  public <$> Collection.find_one (by_username name) users1
    = public <$> Collection.find_one (by_username name) users2.
Proof.
  intros Hsame. unfold Collection.find_one.
  assert (∀ us, public <$> head (filter (by_username name) us)
                = head (filter (λ u, User.username u = name) (public <$> us))) as Hview.
  { intros us. induction us as [|d us IH]; [done|].
    rewrite fmap_cons, !filter_cons.
    destruct (decide (by_username name d)) as [Hd|Hd];
      destruct (decide (User.username (public d) = name)) as [Hd'|Hd']; try done.
    - apply Is_true_true, by_username_true in Hd. done.
    - apply by_username_true in Hd'. by rewrite Hd' in Hd. }
  by rewrite !Hview, Hsame.
Qed.

(** C10: the user object of a successful register or login response
    has exactly the fields id, username and created_at, taken from the
    user document; the response is the same whatever the password, the
    salt and the stored hashes are, so neither the plaintext nor the
    hash shows in it.  The error responses of the two endpoints are
    fixed messages, and the responses of the other routes do not depend
    on the users collection at all. *)
Theorem auth_responses_hide_password (env : Env) :
  (∀ user_data db db' token,
     register SECRET_KEY env user_data db = (Return token, db') →
     (User.model_dump (Token.user token)).*1 = ["id"; "username"; "created_at"] ∧
     (∃ doc, users db' = users db ++ [doc] ∧ Token.user token = public doc) ∧
     ∀ password' salt',
       (register SECRET_KEY {| now := now env; uuid4 := uuid4 env; salt := salt' |}
                 (UserRegister.mk (UserRegister.username user_data) password') db).1
       = Return token) ∧
  (∀ user_data db db' token,
     login SECRET_KEY env user_data db = (Return token, db') →
     (User.model_dump (Token.user token)).*1 = ["id"; "username"; "created_at"] ∧
     (∃ doc, stored (users db) (UserLogin.username user_data) doc ∧
             Token.user token = public doc) ∧
     ∀ user_data2 db2 db2' token2,
       UserLogin.username user_data2 = UserLogin.username user_data →
       public <$> users db2 = public <$> users db →
       login SECRET_KEY env user_data2 db2 = (Return token2, db2') →
       token2 = token) ∧
  (∀ user_data db e,
     (register SECRET_KEY env user_data db).1 = Raise e →
     e = HTTPException 400 "Username already registered") ∧
  (∀ user_data db e,
     (login SECRET_KEY env user_data db).1 = Raise e →
     e = HTTPException 401 "Incorrect username or password") ∧
  (∀ credentials body db1 db2,
     problems db1 = problems db2 →
     (post_problems SECRET_KEY env credentials body db1).1
       = (post_problems SECRET_KEY env credentials body db2).1 ∧
     (get_problems_route SECRET_KEY env credentials db1).1
       = (get_problems_route SECRET_KEY env credentials db2).1 ∧
     (get_stats_route SECRET_KEY env credentials db1).1
       = (get_stats_route SECRET_KEY env credentials db2).1 ∧
     (post_seed_data SECRET_KEY env credentials db1).1
       = (post_seed_data SECRET_KEY env credentials db2).1).
Proof.
  split; [|split; [|split; [|split]]]; cycle 2.
  { intros user_data db e. unfold register.
    destruct (Collection.find_one _ (users db)); [|done]. by intros [= <-]. }
  { intros user_data db e. unfold login.
    destruct (Collection.find_one _ (users db)) as [doc|]; [|by intros [= <-]].
    destruct (verify_password _ _); [done|]. by intros [= <-]. }
  { intros credentials body [users1 problems1] [users2 problems2] Hsame.
    simpl in Hsame. subst problems2.
    unfold post_problems, get_problems_route, get_stats_route, post_seed_data, authenticated.
    destruct (get_current_user _ _ _) as [user_id|e]; [|done].
    split; [|split; [done|split; [done|]]].
    - unfold with_body. by destruct (ProblemCreate.validate body).
    - unfold seed_data. cbn [problems]. by destruct (0 <? _)%nat. }
  - intros user_data db db' token Hreg.
    destruct (register_response _ _ _ _ _ Hreg) as (Htoken & doc & Hdb' & Hpub & Hfree).
    split; [done|]. split; [by exists doc|].
    intros password' salt'. unfold register. cbn [UserRegister.username].
    rewrite Hfree. cbn [fst now uuid4]. by rewrite Htoken.
  - intros user_data db db' token Hlogin.
    destruct (login_response _ _ _ _ _ Hlogin) as (doc & Hfind & ->).
    split; [done|]. split.
    + exists doc. split; [|done].
      unfold Collection.find_one in Hfind.
      clear Hlogin. induction (users db) as [|d us IH]; [done|].
      rewrite filter_cons in Hfind.
      destruct (decide (by_username (UserLogin.username user_data) d)) as [Hd|Hd].
      * injection Hfind as ->. exists [], us.
        split; [done|]. split; [by apply by_username_true, Is_true_true|].
        intros d' Hd'. by apply elem_of_nil in Hd'.
      * destruct (IH Hfind) as (l1 & l2 & -> & Hname & Hfirst).
        exists (d :: l1), l2. split; [done|]. split; [done|].
        intros d' [->|Hd']%elem_of_cons; [|by apply Hfirst].
        intros Hname'. apply Hd, Is_true_true. by apply by_username_true.
    + intros user_data2 db2 db2' token2 Hname Hsame Hlogin2.
      destruct (login_response _ _ _ _ _ Hlogin2) as (doc2 & Hfind2 & ->).
      pose proof (find_one_public (UserLogin.username user_data) _ _ Hsame) as Hview.
      rewrite Hname in Hfind2. rewrite Hfind, Hfind2 in Hview.
      simpl in Hview. assert (public doc2 = public doc) as -> by congruence. done.
Qed.

End responses.

(** ** The problem store as its users see it *)

Section store.
Context `{Libs}.
Variable SECRET_KEY : string.

Lemma find_owned (user_id : string) (collection : list Problem.t) :
  filter (by_user_id user_id) collection = owned collection user_id.
Proof.
  unfold owned. apply list_filter_iff. intros p.
  rewrite <- by_user_id_true. apply Is_true_true.
Qed.

Lemma get_problems_owned (user_id : string) (db : Db) :
  get_problems user_id db = (Return (take 1000 (owned (problems db) user_id)), db).
Proof. unfold get_problems, Collection.find_to_list. by rewrite find_owned. Qed.

Lemma count_documents_owned (user_id : string) (collection : list Problem.t) :
  Collection.count_documents (by_user_id user_id) collection
    = length (owned collection user_id).
Proof. unfold Collection.count_documents. by rewrite find_owned. Qed.

Lemma owned_app (user_id : string) (l1 l2 : list Problem.t) :
  owned (l1 ++ l2) user_id = owned l1 user_id ++ owned l2 user_id.
Proof. apply filter_app. Qed.

Lemma owned_all (user_id : string) (l : list Problem.t) :
  Forall (λ p, Problem.user_id p = user_id) l → owned l user_id = l.
Proof.
  unfold owned. induction 1 as [|p l Hp Hl IH]; [done|].
  by rewrite filter_cons, decide_True, IH.
Qed.

Lemma owned_none (user_id : string) (l : list Problem.t) :
  Forall (λ p, Problem.user_id p ≠ user_id) l → owned l user_id = [].
Proof.
  unfold owned. induction 1 as [|p l Hp Hl IH]; [done|].
  by rewrite filter_cons, decide_False, IH.
Qed.

(** X1: GET /problems shows a caller their own problems and nothing else:
    at most 1000 of them, in the order they were stored, all of them
    when there are no more than 1000; the database is not touched. *)
Theorem get_problems_lists_own (user_id : string) (db : Db) :
  ∃ listed,
    get_problems user_id db = (Return listed, db) ∧
    (length listed ≤ 1000)%nat ∧
    listed `prefix_of` owned (problems db) user_id ∧
    Forall (λ p, p ∈ problems db ∧ Problem.user_id p = user_id) listed ∧
    ((Collection.count_documents (by_user_id user_id) (problems db) ≤ 1000)%nat →
       listed = owned (problems db) user_id).
Proof.
  eexists. split; [apply get_problems_owned|].
  split; [rewrite length_take; lia|].
  split; [apply prefix_take|]. split.
  - apply Forall_forall. intros p Hp.
    apply elem_of_take in Hp as (i & Hi%list_elem_of_lookup_2 & _).
    unfold owned in Hi. apply list_elem_of_filter in Hi. tauto.
  - rewrite count_documents_owned. intros Hfew. by apply take_ge.
Qed.

Lemma owned_after_create (env : Env) (problem_data : ProblemCreate.t)
    (user_id other : string) (db : Db) :
  owned (problems (create_problem env problem_data user_id db).2) other
  = owned (problems db) other
    ++ (if decide (user_id = other) then [new_problem env 0 user_id problem_data] else []).
Proof.
  cbn [create_problem snd problems]. unfold Collection.insert_one.
  rewrite owned_app. unfold owned. rewrite filter_cons, filter_nil.
  cbn [new_problem Problem.user_id]. by destruct (decide (user_id = other)).
Qed.

Lemma seeded_owned (env : Env) (user_id : string) (samples : list ProblemCreate.t) (n : nat) :
  Forall (λ p, Problem.user_id p = user_id)
         (imap (λ i, new_problem env (n + i) user_id) samples).
Proof.
  revert n. induction samples as [|pd samples IH]; intros n; [constructor|].
  rewrite imap_cons. constructor; [done|].
  rewrite (imap_ext _ (λ i, new_problem env (S n + i) user_id)); [apply IH|].
  intros i x _. simpl. f_equal. lia.
Qed.

Lemma seed_data_problems (env : Env) (user_id : string) (db : Db) :
  ∃ new,
    (seed_data env user_id db).2 = {| users := users db; problems := problems db ++ new |} ∧
    Forall (λ p, Problem.user_id p = user_id) new.
Proof.
  unfold seed_data. destruct (0 <? _)%nat.
  - exists []. rewrite app_nil_r. by destruct db.
  - eexists. cbn [snd]. rewrite seed_loop_app. split; [done|]. apply seeded_owned.
Qed.

(** X2: A created problem is stored for its owner, and is listed next as
    long as the owner had fewer than 1000 problems; beyond that it is
    stored but GET /problems, which fetches 1000 documents, does not
    show it. *)
Theorem create_problem_then_listed (env : Env) (problem_data : ProblemCreate.t)
    (user_id : string) (db : Db) :
  let problem := new_problem env 0 user_id problem_data in
  let db' := (create_problem env problem_data user_id db).2 in
  let mine := owned (problems db) user_id in
  owned (problems db') user_id = mine ++ [problem] ∧
  ((length mine < 1000)%nat →
     (get_problems user_id db').1 = Return (mine ++ [problem])) ∧
  ((1000 ≤ length mine)%nat →
     (get_problems user_id db').1 = (get_problems user_id db).1 ∧
     problem ∈ problems db').
Proof.
  intros problem db' mine.
  assert (owned (problems db') user_id = mine ++ [problem]) as Hmine.
  { subst db'. by rewrite owned_after_create, decide_True. }
  split; [done|]. rewrite !get_problems_owned, Hmine. cbn [fst]. split.
  - intros Hfew. f_equal. apply take_ge. rewrite length_app. simpl. lia.
  - intros Hmany. split; [f_equal; by apply take_app_le|].
    subst db'. cbn [create_problem snd problems]. unfold Collection.insert_one.
    apply elem_of_app. right. left.
Qed.

(** X3: What one user creates or seeds changes nothing another user is
    shown: neither their problem list nor their statistics. *)
Theorem other_users_unaffected (env env' : Env) (problem_data : ProblemCreate.t)
    (user_id other : string) (db : Db) :
  other ≠ user_id →
  let created := (create_problem env problem_data user_id db).2 in
  let seeded := (seed_data env user_id db).2 in
  (get_problems other created).1 = (get_problems other db).1 ∧
  (get_stats env' other created).1 = (get_stats env' other db).1 ∧
  (get_problems other seeded).1 = (get_problems other db).1 ∧
  (get_stats env' other seeded).1 = (get_stats env' other db).1.
Proof.
  intros Hother created seeded.
  assert (owned (problems created) other = owned (problems db) other) as Hcreated.
  { subst created. rewrite owned_after_create, decide_False by done. apply app_nil_r. }
  assert (owned (problems seeded) other = owned (problems db) other) as Hseeded.
  { subst seeded. destruct (seed_data_problems env user_id db) as (new & -> & Hnew).
    cbn [problems]. rewrite owned_app, (owned_none other new), app_nil_r; [done|].
    eapply Forall_impl; [exact Hnew|]. simpl. intros p ->. done. }
  rewrite !get_problems_owned. unfold get_stats, Collection.find_to_list.
  rewrite !find_owned, Hcreated, Hseeded. done.
Qed.

Lemma find_one_none_inv {D} (matches : D → bool) (c : list D) :
  Collection.find_one matches c = None → ∀ d, d ∈ c → matches d = false.
Proof.
  intros Hnone d Hd. destruct (matches d) eqn:Hm; [|done].
  destruct (find_one_some matches c d Hd Hm) as [d' Hd']. congruence.
Qed.

Lemma register_result (env : Env) (user_data : UserRegister.t) (db : Db) :
  ((register SECRET_KEY env user_data db).2 = db ∧
   ∃ detail, (register SECRET_KEY env user_data db).1 = Raise (HTTPException 400 detail)) ∨
  (username_free (users db) (UserRegister.username user_data) ∧
   ∃ token doc,
     register SECRET_KEY env user_data db
       = (Return token, {| users := users db ++ [doc]; problems := problems db |}) ∧
     UserDoc.username doc = UserRegister.username user_data).
Proof.
  unfold register.
  destruct (Collection.find_one _ (users db)) as [d|] eqn:Hfind.
  - left. split; [done|]. by eexists.
  - right. split; [|by eexists _, _].
    intros d Hd. apply by_username_false. by eapply find_one_none_inv.
Qed.

Lemma authenticated_cases {A} (env : Env) (credentials : HTTPAuthorizationCredentials.t)
    (handler : string → Db → outcome A * Db) (db : Db) :
  (∃ e, authenticated SECRET_KEY env credentials handler db = (Raise e, db)) ∨
  (∃ user_id, get_current_user SECRET_KEY env credentials = Return user_id ∧
              authenticated SECRET_KEY env credentials handler db = handler user_id db).
Proof.
  destruct (get_current_user_status SECRET_KEY env credentials)
    as [[user_id Hret]|[Hraise|Hraise]].
  - right. exists user_id. split; [done|]. by apply authenticated_accepts.
  - left. eexists. by apply authenticated_rejects.
  - left. eexists. by apply authenticated_rejects.
Qed.

Lemma extends_refl (db : Db) : extends db db.
Proof. by split. Qed.

Lemma requests_shape (env : Env) (credentials : HTTPAuthorizationCredentials.t)
    (body : json) (registration : UserRegister.t) (attempt : UserLogin.t) (db : Db) :
  (login SECRET_KEY env attempt db).2 = db ∧
  (get_problems_route SECRET_KEY env credentials db).2 = db ∧
  (get_stats_route SECRET_KEY env credentials db).2 = db ∧
  (∃ new, (post_problems SECRET_KEY env credentials body db).2
          = {| users := users db; problems := problems db ++ new |} ∧
          (status (post_problems SECRET_KEY env credentials body db).1 ≠ 200 → new = [])) ∧
  (∃ new, (post_seed_data SECRET_KEY env credentials db).2
          = {| users := users db; problems := problems db ++ new |}) ∧
  (∃ new, (register SECRET_KEY env registration db).2
          = {| users := users db ++ new; problems := problems db |} ∧
          (status (register SECRET_KEY env registration db).1 ≠ 200 → new = [])).
Proof.
  split; [|split; [|split; [|split; [|split]]]].
  - unfold login. destruct (Collection.find_one _ _); [|done].
    by destruct (verify_password _ _).
  - unfold get_problems_route.
    destruct (authenticated_cases env credentials get_problems db)
      as [[detail ->]|(user_id & _ & ->)]; done.
  - unfold get_stats_route.
    destruct (authenticated_cases env credentials (get_stats env) db)
      as [[detail ->]|(user_id & _ & ->)]; done.
  - unfold post_problems.
    destruct (authenticated_cases env credentials (with_body body (create_problem env)) db)
      as [[detail ->]|(user_id & _ & ->)].
    + exists []. rewrite app_nil_r. by destruct db.
    + unfold with_body. destruct (ProblemCreate.validate body).
      * eexists. split; [done|]. done.
      * exists []. rewrite app_nil_r. by destruct db.
  - unfold post_seed_data.
    destruct (authenticated_cases env credentials (seed_data env) db)
      as [[detail ->]|(user_id & _ & ->)].
    + exists []. rewrite app_nil_r. by destruct db.
    + destruct (seed_data_problems env user_id db) as (new & -> & _). by exists new.
  - destruct (register_result env registration db)
      as [[Hsame [detail Hd]]|(_ & token & doc & -> & _)].
    + exists []. rewrite Hsame, app_nil_r. by destruct db.
    + eexists. split; [done|]. done.
Qed.

(** X4: No request removes or rewrites a stored document: each leaves both
    collections as prefixes of what they become.  Login and the two GET
    routes change nothing at all, only registration adds a user, only
    the two POST routes on problems add problems, and a request that is
    refused changes nothing. *)
Theorem store_append_only (env : Env) (credentials : HTTPAuthorizationCredentials.t)
    (body : json) (registration : UserRegister.t) (attempt : UserLogin.t) (db : Db) :
  Forall (extends db)
         (after_any_request SECRET_KEY env credentials body registration attempt db) ∧
  (login SECRET_KEY env attempt db).2 = db ∧
  (get_problems_route SECRET_KEY env credentials db).2 = db ∧
  (get_stats_route SECRET_KEY env credentials db).2 = db ∧
  problems (register SECRET_KEY env registration db).2 = problems db ∧
  users (post_problems SECRET_KEY env credentials body db).2 = users db ∧
  users (post_seed_data SECRET_KEY env credentials db).2 = users db ∧
  (status (register SECRET_KEY env registration db).1 ≠ 200 →
     (register SECRET_KEY env registration db).2 = db) ∧
  (status (post_problems SECRET_KEY env credentials body db).1 ≠ 200 →
     (post_problems SECRET_KEY env credentials body db).2 = db).
Proof.
  destruct (requests_shape env credentials body registration attempt db)
    as (Hlogin & Hget & Hstats & (created & Hpost & Hrefused) & (seeded & Hseed)
        & (registered & Hreg & Hregfail)).
  split; [|repeat split; try done].
  - unfold after_any_request. rewrite Hlogin, Hget, Hstats, Hpost, Hseed, Hreg.
    repeat constructor; cbn [users problems]; try done; by apply prefix_app_r.
  - by rewrite Hreg.
  - by rewrite Hpost.
  - by rewrite Hseed.
  - intros Hfail. rewrite Hreg, (Hregfail Hfail), app_nil_r. by destruct db.
  - intros Hfail. rewrite Hpost, (Hrefused Hfail), app_nil_r. by destruct db.
Qed.

(** X5: No two users get the same username: if the stored usernames are
    pairwise distinct, they still are after any request. *)
Theorem usernames_stay_unique (env : Env) (credentials : HTTPAuthorizationCredentials.t)
    (body : json) (registration : UserRegister.t) (attempt : UserLogin.t) (db : Db) :
  unique_usernames db →
  Forall unique_usernames
         (after_any_request SECRET_KEY env credentials body registration attempt db).
Proof.
  intros Hunique.
  destruct (requests_shape env credentials body registration attempt db)
    as (Hlogin & Hget & Hstats & (created & Hpost & _) & (seeded & Hseed) & _).
  unfold after_any_request, unique_usernames in *.
  rewrite Hlogin, Hget, Hstats, Hpost, Hseed.
  repeat constructor; try done.
  destruct (register_result env registration db)
    as [[-> _]|(Hfree & token & doc & -> & Hname)]; [done|].
  cbn [snd users]. rewrite fmap_app. apply NoDup_app. split; [done|]. split.
  - intros name (d & Hd_name & Hd)%list_elem_of_fmap Hin.
    simpl in Hin. apply list_elem_of_singleton in Hin.
    apply (Hfree d Hd). congruence.
  - apply NoDup_singleton.
Qed.

End store.

(** ** Accounts and tokens in sequence *)

Section journeys.
Context `{Libs}.
Variable SECRET_KEY : string.

Lemma register_fresh (env : Env) (user_data : UserRegister.t) (db : Db) :
  username_free (users db) (UserRegister.username user_data) →
  let user := User.mk (uuid4 env 0) (UserRegister.username user_data) (now env) in
  let doc := UserDoc.mk (uuid4 env 0) (UserRegister.username user_data) (now env)
                        (hash_password env (UserRegister.password user_data)) in
  register SECRET_KEY env user_data db
  = (Return (token_for SECRET_KEY env user),
     {| users := users db ++ [doc]; problems := problems db |}).
Proof.
  intros Hfree. unfold register.
  rewrite find_one_none; [done|].
  intros d Hd. apply by_username_false. by apply Hfree.
Qed.

Lemma issued_token_valid (env env' : Env) (data : claims) (user_id : string) :
  sub data = Some user_id →
  now env' < now env + 30 * 86400 →
  valid_token SECRET_KEY (now env') (create_access_token SECRET_KEY env data) user_id.
Proof.
  intros Hsub Hbefore. eexists. split; [done|]. split; [|done].
  intros e [= <-]. unfold timedelta_minutes, ACCESS_TOKEN_EXPIRE_MINUTES. lia.
Qed.

(** X6: Whoever registers can log in afterwards with the same password, and
    is told the same identity: given that the hashing library verifies
    the hash it produced for the password, login after a successful registration
    answers 200 with the user object registration returned and a token
    for the same id; a password the library does not verify against the
    stored hash is answered 401. *)
Theorem register_then_login (env env' : Env) (user_data : UserRegister.t) (db : Db) :
  pwd_verify (UserRegister.password user_data)
             (pwd_hash (salt env) (UserRegister.password user_data)) = true →
  username_free (users db) (UserRegister.username user_data) →
  let name := UserRegister.username user_data in
  let password := UserRegister.password user_data in
  let db' := (register SECRET_KEY env user_data db).2 in
  ∃ token token' hashed,
    register SECRET_KEY env user_data db = (Return token, db') ∧
    login SECRET_KEY env' (UserLogin.mk name password) db' = (Return token', db') ∧
    Token.user token' = Token.user token ∧
    get_current_user SECRET_KEY env'
      (HTTPAuthorizationCredentials.mk "Bearer" (Token.access_token token'))
      = Return (User.id (Token.user token)) ∧
    stored (users db') name hashed ∧
    ∀ wrong, pwd_verify wrong (UserDoc.password hashed) = false →
             login SECRET_KEY env' (UserLogin.mk name wrong) db'
             = (Raise (HTTPException 401 "Incorrect username or password"), db').
Proof.
  intros Hlaw Hfree name password db'.
  pose proof (register_fresh env user_data db Hfree) as Hreg. cbv zeta in Hreg.
  subst db'. rewrite Hreg. cbn [snd].
  set (doc := UserDoc.mk _ _ _ _).
  assert (Collection.find_one (by_username name) (users db ++ [doc]) = Some doc) as Hfind.
  { apply find_one_first; [|by apply by_username_true].
    intros d Hd. apply by_username_false. by apply Hfree. }
  eexists _, _, doc. split; [done|].
  unfold login. cbn [UserLogin.username UserLogin.password users]. rewrite Hfind.
  unfold verify_password at 1. subst doc. cbn [UserDoc.password].
  unfold hash_password at 1. subst password. rewrite Hlaw. cbn [negb].
  split; [done|]. split; [done|]. split.
  - apply get_current_user_valid. apply issued_token_valid; [done|lia].
  - split.
    + exists (users db), []. split; [done|]. split; [done|]. apply Hfree.
    + intros wrong Hwrong. unfold verify_password.
      cbn [UserDoc.password] in Hwrong. by rewrite Hwrong.
Qed.

(** X7: The token handed out at registration works: until it expires, the
    new user can store a problem with it and is then shown that problem
    as the last of their list. *)
Theorem registered_user_records_a_problem (env env1 env2 : Env)
    (user_data : UserRegister.t) (body : json) (problem_data : ProblemCreate.t) (db : Db) :
  username_free (users db) (UserRegister.username user_data) →
  ProblemCreate.validate body = Some problem_data →
  now env1 < now env + 30 * 86400 →
  now env2 < now env + 30 * 86400 →
  ∃ token,
    (register SECRET_KEY env user_data db).1 = Return token ∧
    let credentials :=
      HTTPAuthorizationCredentials.mk "Bearer" (Token.access_token token) in
    let user_id := User.id (Token.user token) in
    let problem := new_problem env1 0 user_id problem_data in
    let db1 := (register SECRET_KEY env user_data db).2 in
    let db2 := (post_problems SECRET_KEY env1 credentials body db1).2 in
    (post_problems SECRET_KEY env1 credentials body db1).1 = Return problem ∧
    (get_problems_route SECRET_KEY env2 credentials db2).1
      = Return (take 1000 (owned (problems db) user_id ++ [problem])).
Proof.
  intros Hfree Hbody Hbefore1 Hbefore2.
  pose proof (register_fresh env user_data db Hfree) as Hreg. cbv zeta in Hreg.
  rewrite Hreg. eexists. split; [done|].
  cbn [fst snd token_for Token.access_token Token.user User.id].
  assert (∀ e, now e < now env + 30 * 86400 →
            get_current_user SECRET_KEY e
              (HTTPAuthorizationCredentials.mk "Bearer"
                 (create_access_token SECRET_KEY env (Claims (Some (uuid4 env 0)) None)))
            = Return (uuid4 env 0)) as Hauth.
  { intros e He. apply get_current_user_valid. by apply issued_token_valid. }
  unfold post_problems, get_problems_route.
  rewrite !(authenticated_accepts _ _ _ _ _ (uuid4 env 0)) by by apply Hauth.
  unfold with_body. rewrite Hbody. split; [done|].
  rewrite get_problems_owned. cbn [fst]. f_equal. f_equal.
  rewrite owned_after_create, decide_True by done. done.
Qed.

(** X8: A token is good for thirty days and no longer, whatever expiry the
    data it was issued for carried: after that every verification
    answers 401 "Token has expired". *)
Theorem issued_token_expires (env env' : Env) (data : claims) (scheme : string) :
  now env + 30 * 86400 < now env' →
  get_current_user SECRET_KEY env'
    (HTTPAuthorizationCredentials.mk scheme (create_access_token SECRET_KEY env data))
  = Raise (HTTPException 401 "Token has expired").
Proof.
  intros Hafter. unfold get_current_user, create_access_token, Jwt.decode, Jwt.encode.
  cbn [HTTPAuthorizationCredentials.credentials exp].
  rewrite String.eqb_refl.
  unfold timedelta_minutes, ACCESS_TOKEN_EXPIRE_MINUTES.
  destruct (Z.leb_spec (now env + 30 * 24 * 60 * 60) (now env')); [done|lia].
Qed.

End journeys.

(** ** The streak in terms of days *)

Section streak_days.
Context `{Libs}.

Lemma parsed_descending_on (dates : list string) (days : list Z) :
  ordered_as_dates dates →
  StronglySorted (λ a b, String.ltb b a = true) dates →
  parsed dates days →
  StronglySorted (λ a b, b < a) days.
Proof.
  intros Hord Hsorted Hparsed. revert Hord Hsorted.
  induction Hparsed as [|s d dates days Hsd Hrest IH]; intros Hord Hsorted; [constructor|].
  apply StronglySorted_inv in Hsorted as [Hsorted Hhead].
  constructor.
  - apply IH; [|done]. intros s1 s2 d1 d2 Hs1 Hs2. apply Hord; by right.
  - apply Forall_forall. intros d' Hd'.
    apply (parsed_elem_of _ _ _ Hrest) in Hd' as (s' & Hs' & Hsd').
    eapply Forall_forall in Hhead; [|done].
    apply (Hord s' s d' d); [by right|by left|done..].
Qed.

(** The distinct completion dates are ordered as dates when the stored
    values are. *)
Lemma completion_dates_ordered (problems : list Problem.t) :
  ordered_as_dates (Problem.date_completed <$> problems) →
  ordered_as_dates (completion_dates problems).
Proof.
  intros Hord s1 s2 d1 d2 Hs1 Hs2.
  destruct (completion_dates_distinct_desc problems) as [_ Helem].
  apply Hord; by apply Helem.
Qed.

Lemma run_cons (today d : Z) (rest : list Z) (n : nat) :
  run today (d :: rest) (S n) ↔ d = today ∧ run (today - 1) rest n.
Proof.
  unfold run. split.
  - intros Hrun. split.
    + specialize (Hrun 0%nat ltac:(lia)). simpl in Hrun. injection Hrun. lia.
    + intros i Hi. specialize (Hrun (S i) ltac:(lia)). simpl in Hrun.
      rewrite Hrun. f_equal. lia.
  - intros [-> Hrun] [|i] Hi; simpl.
    + f_equal. lia.
    + rewrite Hrun by lia. f_equal. lia.
Qed.

Lemma run_nil (today : Z) (n : nat) : run today [] n ↔ n = 0%nat.
Proof.
  unfold run. split.
  - destruct n; [done|]. intros Hrun. by specialize (Hrun 0%nat ltac:(lia)).
  - intros -> i Hi. lia.
Qed.

(** On distinct days, latest first and none after today, the first [n]
    are today and the days before it exactly when all those days occur. *)
Lemma run_present (days : list Z) :
  StronglySorted (λ a b, b < a) days →
  ∀ today n,
    Forall (λ d, d ≤ today) days →
    run today days n ↔ ∀ i, (i < n)%nat → today - Z.of_nat i ∈ days.
Proof.
  induction 1 as [|d rest Hsorted IH Hhead]; intros today n Hbound.
  - rewrite run_nil. split; [intros -> i Hi; lia|].
    destruct n; [done|]. intros Hin. specialize (Hin 0%nat ltac:(lia)).
    by apply elem_of_nil in Hin.
  - destruct n as [|n]; [split; [intros _ i Hi; lia|intros _ i Hi; lia]|].
    apply Forall_cons in Hbound as [Hd Hbound].
    rewrite run_cons. split.
    + intros [-> Hrun] [|i] Hi.
      * rewrite Z.sub_0_r. left.
      * right. assert (Forall (λ d, d ≤ today - 1) rest) as Hrest.
        { eapply Forall_impl; [exact Hhead|]. simpl. lia. }
        apply (IH (today - 1) n Hrest) with (i := i) in Hrun; [|lia].
        replace (today - Z.of_nat (S i)) with (today - 1 - Z.of_nat i) by lia. done.
    + intros Hin.
      assert (d = today) as ->.
      { specialize (Hin 0%nat ltac:(lia)). rewrite Z.sub_0_r in Hin.
        apply elem_of_cons in Hin as [->|Hin]; [done|].
        eapply Forall_forall in Hhead; [|done]. lia. }
      split; [done|].
      assert (Forall (λ d, d ≤ today - 1) rest) as Hrest.
      { eapply Forall_impl; [exact Hhead|]. simpl. lia. }
      apply (IH (today - 1) n Hrest). intros i Hi.
      specialize (Hin (S i) ltac:(lia)).
      apply elem_of_cons in Hin as [Heq|Hin]; [lia|].
      replace (today - 1 - Z.of_nat i) with (today - Z.of_nat (S i)) by lia. done.
Qed.

Lemma compute_streak_longest_run (today : Z) (problems : list Problem.t) :
  Forall well_dated problems →
  ∃ k days,
    compute_streak today problems = Return k ∧
    parsed (completion_dates problems) days ∧
    longest_run today days k.
Proof.
  intros Hwd. destruct (well_dated_parsed _ Hwd) as [days Hdays].
  destruct (streak_loop_spec today _ _ Hdays 0%nat 0%nat) as (k & Hk & Hrun & Hmax).
  exists k, days. rewrite compute_streak_loop. split; [done|]. split; [done|]. split.
  - intros i Hi. by rewrite Hrun.
  - intros m Hm. apply Hmax. intros j Hj. by rewrite Hm.
Qed.

Lemma parsed_days_completed (problems : list Problem.t) (days : list Z) :
  parsed (completion_dates problems) days →
  ∀ d, d ∈ days ↔ completed problems d.
Proof.
  intros Hdays d. rewrite (parsed_elem_of _ _ _ Hdays).
  destruct (completion_dates_distinct_desc problems) as [_ Helem]. split.
  - intros (s & Hs & Hd). apply Helem, list_elem_of_fmap in Hs as (p & -> & Hp).
    by exists p.
  - intros (p & Hp & Hd). exists (Problem.date_completed p). split; [|done].
    apply Helem, list_elem_of_fmap. eauto.
Qed.


Lemma longest_run_unique (today : Z) (days : list Z) (k n : nat) :
  longest_run today days k → (k = n ↔ run today days n ∧ ¬ run today days (S n)).
Proof.
  intros [Hrun Hmax]. split.
  - intros <-. split; [done|]. intros Hmore. apply Hmax in Hmore. lia.
  - intros [Hn Hnot]. apply Hmax in Hn as Hle.
    destruct (decide (k = n)) as [|Hne]; [done|]. exfalso. apply Hnot.
    intros i Hi. apply Hrun. lia.
Qed.

(** X9: A problem dated after today ends the streak: among stored dates
    that order as strings the way they order as days (as date-only
    strings do), the walk starts at the latest date, which then is not
    today. *)
Theorem future_date_resets_streak (today : Z) (problems : list Problem.t) (d : Z) :
  ordered_as_dates (Problem.date_completed <$> problems) →
  Forall well_dated problems →
  completed problems d → today < d →
  ∃ st, stats_of today problems = Return st ∧ Stats.current_streak st = 0%nat.
Proof.
  intros Hord Hwd Hd Hfuture.
  destruct (compute_streak_longest_run today problems Hwd) as (k & days & Hk & Hdays & Hlong).
  apply stats_of_streak. rewrite Hk. f_equal.
  destruct (completion_dates_distinct_desc problems) as [Hsorted _].
  pose proof (parsed_descending_on _ _ (completion_dates_ordered _ Hord) Hsorted Hdays)
    as Hdesc.
  apply (parsed_days_completed _ _ Hdays) in Hd.
  destruct k as [|k]; [done|]. exfalso.
  destruct Hlong as [Hrun _]. destruct days as [|d0 rest]; [by apply elem_of_nil in Hd|].
  apply run_cons in Hrun as [-> _].
  apply elem_of_cons in Hd as [->|Hd]; [lia|].
  apply StronglySorted_inv in Hdesc as [_ Hhead].
  eapply Forall_forall in Hhead; [|done]. lia.
Qed.

(** X10: With no problem dated after today, and stored dates that order
    as strings the way they order as days (as date-only strings do),
    the streak is the number of days, counted back from today, on each
    of which a problem was completed: n exactly when today and the
    n - 1 days before it all have one and the day before those has
    none. *)
Theorem streak_counts_back_from_today (today : Z) (problems : list Problem.t) :
  ordered_as_dates (Problem.date_completed <$> problems) →
  Forall well_dated problems →
  (∀ d, completed problems d → d ≤ today) →
  ∃ st, stats_of today problems = Return st ∧
    ∀ n, Stats.current_streak st = n ↔
         (∀ i, (i < n)%nat → completed problems (today - Z.of_nat i)) ∧
         ¬ completed problems (today - Z.of_nat n).
Proof.
  intros Hord Hwd Hpast.
  destruct (compute_streak_longest_run today problems Hwd) as (k & days & Hk & Hdays & Hlong).
  destruct (stats_of_streak _ _ _ Hk) as (st & Hst & Hcur). subst k.
  exists st. split; [done|]. intros n.
  destruct (completion_dates_distinct_desc problems) as [Hsorted _].
  pose proof (parsed_descending_on _ _ (completion_dates_ordered _ Hord) Hsorted Hdays)
    as Hdesc.
  assert (Forall (λ d, d ≤ today) days) as Hbound.
  { apply Forall_forall. intros d Hd. by apply Hpast, (parsed_days_completed _ _ Hdays). }
  rewrite (longest_run_unique _ _ _ n Hlong), !(run_present _ Hdesc _ _ Hbound).
  split.
  - intros [Hn Hnot]. split.
    + intros i Hi. by apply (parsed_days_completed _ _ Hdays), Hn.
    + intros Hlast. apply Hnot. intros i Hi.
      destruct (decide (i = n)) as [->|Hne].
      * by apply (parsed_days_completed _ _ Hdays).
      * apply Hn. lia.
  - intros [Hn Hnot]. split.
    + intros i Hi. by apply (parsed_days_completed _ _ Hdays), Hn.
    + intros Hmore. apply Hnot, (parsed_days_completed _ _ Hdays), Hmore. lia.
Qed.

End streak_days.

(** ** Bounds and symmetries of the statistics *)

Section stats_more.
Context `{Libs}.





Lemma stats_of_returns (today : Z) (problems : list Problem.t) :
  Forall well_dated problems →
  ∃ k days,
    stats_of today problems
      = Return (Stats.mk (length problems) k
                  (sorted count_desc
                     (topic_stats (length problems)
                        <$> table (λ t, occurrences t (all_topics problems))
                                  (first_seen (all_topics problems))))) ∧
    parsed (completion_dates problems) days ∧
    longest_run today days k.
Proof.
  intros Hwd.
  destruct (compute_streak_longest_run today problems Hwd) as (k & days & Hk & Hdays & Hlong).
  exists k, days. unfold stats_of. by rewrite Hk, count_topics_table.
Qed.












End stats_more.

(** ** Validation of a problem body *)

Section validation.
Context `{Libs}.
Variable SECRET_KEY : string.

Lemma as_str_Some (j : option json) (s : string) :
  as_str j = Some s ↔ j = Some (JString s).
Proof.
  split; [|by intros ->].
  destruct j as [[]|]; simpl; try done. by intros [= ->].
Qed.

Lemma as_list_str_Some (j : option json) (l : list string) :
  as_list_str j = Some l ↔ j = Some (JArray (JString <$> l)).
Proof.
  split.
  - destruct j as [[| | | |items|]|]; simpl; try done.
    intros Hitems%mapM_Some. do 2 f_equal.
    induction Hitems as [|i s items l His _ IH]; [done|].
    destruct i; try done. injection His as ->. by rewrite IH.
  - intros ->. simpl. apply mapM_Some.
    induction l as [|s l IH]; constructor; done.
Qed.

Lemma validate_carries (body : json) (problem_data : ProblemCreate.t) :
  ProblemCreate.validate body = Some problem_data ↔ carries body problem_data.
Proof.
  destruct problem_data as [title platform difficulty topics date_completed].
  unfold carries. cbn [ProblemCreate.title ProblemCreate.platform ProblemCreate.difficulty
                       ProblemCreate.topics ProblemCreate.date_completed].
  split.
  - destruct body as [| | | | |ms]; try done. simpl.
    destruct (as_str (member "title" ms)) as [t|] eqn:Ht; [|done].
    destruct (as_str (member "platform" ms)) as [p|] eqn:Hp; [|done].
    destruct (as_str (member "difficulty" ms)) as [d|] eqn:Hd; [|done].
    destruct (as_list_str (member "topics" ms)) as [ts|] eqn:Hts; [|done].
    destruct (as_str (member "date_completed" ms)) as [dc|] eqn:Hdc; [|done].
    simpl. intros [= <- <- <- <- <-].
    apply as_str_Some in Ht, Hp, Hd, Hdc. apply as_list_str_Some in Hts.
    by exists ms.
  - intros (ms & -> & Ht & Hp & Hd & Hts & Hdc).
    apply as_str_Some in Ht, Hp, Hd, Hdc. apply as_list_str_Some in Hts.
    simpl. rewrite Ht, Hp, Hd, Hts, Hdc. done.
Qed.

(** X14: POST /problems checks the shape of the body and nothing more.  A
    body that is an object with the five fields, strings as strings and
    topics as an array of strings, is stored with exactly those values
    under the caller's id and answered 200; any other body (a field
    missing or of another type, or no object at all) is answered 422
    and nothing is stored. *)
Theorem post_problems_checks_the_body (env : Env)
    (credentials : HTTPAuthorizationCredentials.t) (user_id : string) (body : json) (db : Db) :
  get_current_user SECRET_KEY env credentials = Return user_id →
  (∀ problem_data,
     carries body problem_data →
     let problem :=
       Problem.mk (uuid4 env 0) user_id
                  (ProblemCreate.title problem_data) (ProblemCreate.platform problem_data)
                  (ProblemCreate.difficulty problem_data) (ProblemCreate.topics problem_data)
                  (ProblemCreate.date_completed problem_data) (now env) in
     post_problems SECRET_KEY env credentials body db
     = (Return problem, {| users := users db; problems := problems db ++ [problem] |})) ∧
  ((∀ problem_data, ¬ carries body problem_data) →
     post_problems SECRET_KEY env credentials body db = (Raise RequestValidationError, db) ∧
     status (post_problems SECRET_KEY env credentials body db).1 = 422).
Proof.
  intros Hauth. unfold post_problems.
  rewrite (authenticated_accepts _ _ _ _ _ user_id) by done.
  unfold with_body. split.
  - intros problem_data Hbody%validate_carries. by rewrite Hbody.
  - intros Hnone. destruct (ProblemCreate.validate body) as [problem_data|] eqn:Hbody.
    + apply validate_carries in Hbody. by apply Hnone in Hbody.
    + done.
Qed.

End validation.

(** ** Statistics of the seed data *)

Section seeding.
Context `{Libs}.

Lemma days_ago_date (env : Env) (k : Z) :
  days_ago env k = date_isoformat (utc_date (now env) - k).
Proof.
  unfold days_ago, utc_date, timedelta_days. f_equal.
  replace (now env - k * 86400) with (now env + (- k) * 86400) by lia.
  rewrite Z.div_add by lia. lia.
Qed.

Lemma seed_data_fresh (env : Env) (user_id : string) (db : Db) :
  ¬ has_problems (problems db) user_id →
  owned (problems (seed_data env user_id db).2) user_id
  = imap (λ i, new_problem env (0 + i) user_id) (sample_problems env).
Proof.
  intros Hnone. unfold seed_data. rewrite count_documents_zero.
  - cbn [Nat.ltb Nat.leb snd problems]. rewrite seed_loop_app, owned_app.
    rewrite owned_none, owned_all; [done|apply seeded_owned|].
    apply Forall_forall. intros p Hp Hown. apply Hnone. by exists p.
  - intros p Hp. apply by_user_id_false. intros Hown. apply Hnone. by exists p.
Qed.

Lemma seeded_dates (env : Env) (user_id : string) (samples : list ProblemCreate.t) (n : nat) :
  Problem.date_completed <$> imap (λ i, new_problem env (n + i) user_id) samples
  = ProblemCreate.date_completed <$> samples.
Proof.
  revert n. induction samples as [|pd samples IH]; intros n; [done|].
  rewrite imap_cons, !fmap_cons. f_equal.
  rewrite (imap_ext _ (λ i, new_problem env (S n + i) user_id)); [apply IH|].
  intros i x _. simpl. f_equal. lia.
Qed.

Lemma completed_dates (problems : list Problem.t) (d : Z) :
  completed problems d
  ↔ ∃ s, s ∈ Problem.date_completed <$> problems ∧ date_fromisoformat s = Some d.
Proof.
  unfold completed. split.
  - intros (p & Hp & Hd). exists (Problem.date_completed p).
    split; [|done]. apply list_elem_of_fmap. eauto.
  - intros (s & (p & -> & Hp)%list_elem_of_fmap & Hd). eauto.
Qed.

(** The days on which the seed data has a completion: the day of
    seeding and the eight days before it. *)
Lemma seeded_completed (env : Env) (user_id : string) (d : Z) :
  (∀ k, 0 ≤ k ≤ 8 →
     date_fromisoformat (date_isoformat (utc_date (now env) - k))
     = Some (utc_date (now env) - k)) →
  completed (imap (λ i, new_problem env (0 + i) user_id) (sample_problems env)) d
  ↔ utc_date (now env) - 8 ≤ d ≤ utc_date (now env).
Proof.
  intros Hlaw. pose proof (Hlaw 0 ltac:(lia)) as Hlaw0. rewrite Z.sub_0_r in Hlaw0.
  rewrite completed_dates, seeded_dates.
  unfold sample_problems. rewrite !days_ago_date.
  cbn [fmap list_fmap ProblemCreate.date_completed]. split.
  - intros (s & Hs & Hd).
    repeat (apply elem_of_cons in Hs as [->|Hs];
            [first [rewrite Hlaw0 in Hd | rewrite Hlaw in Hd by lia]; injection Hd; lia|]).
    by apply elem_of_nil in Hs.
  - intros Hd.
    assert (∃ k, 0 ≤ k ≤ 8 ∧ d = utc_date (now env) - k) as (k & Hk & ->)
      by (exists (utc_date (now env) - d); lia).
    assert (k = 0 ∨ k = 1 ∨ k = 2 ∨ k = 3 ∨ k = 4 ∨ k = 5 ∨ k = 6 ∨ k = 7 ∨ k = 8)
      as Hcases by lia.
    exists (date_isoformat (utc_date (now env) - k)). split; [|by apply Hlaw].
    destruct Hcases as [->|[->|[->|[->|[->|[->|[->|[->| ->]]]]]]]];
      rewrite ?Z.sub_0_r, !elem_of_cons; tauto.
Qed.

Lemma seeded_well_dated (env : Env) (user_id : string) :
  (∀ k, 0 ≤ k ≤ 8 →
     date_fromisoformat (date_isoformat (utc_date (now env) - k))
     = Some (utc_date (now env) - k)) →
  Forall well_dated (imap (λ i, new_problem env (0 + i) user_id) (sample_problems env)).
Proof.
  intros Hlaw. pose proof (Hlaw 0 ltac:(lia)) as Hlaw0. rewrite Z.sub_0_r in Hlaw0.
  unfold well_dated.
  apply (Forall_fmap Problem.date_completed (λ s, is_Some (date_fromisoformat s))).
  rewrite seeded_dates. unfold sample_problems. rewrite !days_ago_date.
  cbn [fmap list_fmap ProblemCreate.date_completed].
  repeat constructor; first [by rewrite Hlaw0 | by rewrite Hlaw by lia].
Qed.

(** X15: Seeding an account gives it a nine-day streak, for that day only.
    Given a date library that reads back the nine dates it printed and
    orders those nine strings as the dates they write, the statistics of a freshly seeded user show
    10 problems and the nine topics with their counts, a streak of 9
    while it is still the day of seeding, and a streak of 0 on any
    other day. *)
Theorem seeding_gives_a_nine_day_streak (env env' : Env) (user_id : string) (db : Db) :
  (∀ k, 0 ≤ k ≤ 8 →
     date_fromisoformat (date_isoformat (utc_date (now env) - k))
     = Some (utc_date (now env) - k)) →
  ordered_as_dates (ProblemCreate.date_completed <$> sample_problems env) →
  ¬ has_problems (problems db) user_id →
  let db' := (seed_data env user_id db).2 in
  ∃ st,
    get_stats env' user_id db' = (Return st, db') ∧
    Stats.total_solved st = 10%nat ∧
    (λ ts, (TopicStats.topic ts, TopicStats.count ts)) <$> Stats.topic_wise st
      = [ ("Arrays", 3); ("Strings", 3); ("DP", 3); ("Hash Table", 2); ("Linked List", 2);
          ("Stack", 1); ("Trees", 1); ("DFS", 1); ("Binary Search", 1) ]%nat ∧
    (utc_date (now env') = utc_date (now env) → Stats.current_streak st = 9%nat) ∧
    (utc_date (now env') ≠ utc_date (now env) → Stats.current_streak st = 0%nat).
Proof.
  intros Hlaw Hord Hnone db'.
  set (new := imap (λ i, new_problem env (0 + i) user_id) (sample_problems env)).
  assert (owned (problems db') user_id = new) as Hown by by apply seed_data_fresh.
  pose proof (seeded_well_dated env user_id Hlaw) as Hwd. fold new in Hwd.
  destruct (stats_of_returns (utc_date (now env')) new Hwd) as (k & days & Hst & Hdays & Hlong).
  eexists. unfold get_stats, Collection.find_to_list.
  rewrite find_owned, Hown, (take_ge new) by (subst new; simpl; lia).
  rewrite Hst. split; [done|].
  cbn [Stats.total_solved Stats.topic_wise Stats.current_streak].
  split; [done|]. split; [subst new; vm_compute; reflexivity|].
  destruct (completion_dates_distinct_desc new) as [Hsorted _].
  assert (ordered_as_dates (Problem.date_completed <$> new)) as Hord'
    by (subst new; by rewrite seeded_dates).
  pose proof (parsed_descending_on _ _ (completion_dates_ordered _ Hord') Hsorted Hdays)
    as Hdesc.
  assert (∀ d, d ∈ days ↔ utc_date (now env) - 8 ≤ d ≤ utc_date (now env)) as Hin.
  { intros d. rewrite (parsed_days_completed _ _ Hdays). by apply seeded_completed. }
  split.
  - intros Hsame. rewrite Hsame in Hlong.
    assert (Forall (λ d, d ≤ utc_date (now env)) days) as Hbound.
    { apply Forall_forall. intros d Hd. apply Hin in Hd. lia. }
    apply (longest_run_unique _ _ _ 9%nat Hlong).
    rewrite !(run_present _ Hdesc _ _ Hbound). split.
    + intros i Hi. apply Hin. lia.
    + intros Hmore. specialize (Hmore 9%nat ltac:(lia)). apply Hin in Hmore. lia.
  - intros Hother. apply (longest_run_unique _ _ _ 0%nat Hlong). split.
    + intros i Hi. lia.
    + intros Hone. destruct days as [|d0 rest].
      { by specialize (Hone 0%nat ltac:(lia)). }
      apply run_cons in Hone as [-> _].
      pose proof (proj1 (Hin (utc_date (now env'))) ltac:(left)) as Hrange.
      pose proof (proj2 (Hin (utc_date (now env))) ltac:(lia)) as Hseed.
      apply elem_of_cons in Hseed as [Heq|Hseed]; [lia|].
      apply StronglySorted_inv in Hdesc as [_ Hhead].
      eapply Forall_forall in Hhead; [|done]. lia.
Qed.

End seeding.

(** ** The API tester's bookkeeping (backend_test.py) *)

Section tester.
Import Tester.
Context {World : Type}.
Variable send : string → string → option json → list (string * string) → World →
                (string + response) * World.
Variable show_json : json → string.
Variable first_200 : string → string.
Variable unbound_local : string.

Lemma consistent_log_test (name : string) (b : bool) (d : string) (self : t) :
  consistent self → consistent (log_test name b d self).
Proof.
  intros [Hrun Hpassed]. unfold consistent, log_test. cbn [tests_run tests_passed test_results].
  rewrite length_app, filter_app, length_app. cbn [length].
  split; [lia|].
  destruct b.
  - rewrite filter_cons_True by done. cbn [filter list_filter length]. simpl. lia.
  - rewrite filter_cons_False by done. simpl. lia.
Qed.

(** The two ways [run_test] can end: one entry, or a pass followed by a
    failure when the expected status came with a body that does not
    parse. *)
Lemma run_test_shape (name method endpoint : string) (expected_status : Z)
    (data : option json) (headers : option (list (string * string))) (self : t) (w : World) :
  let url := api_url self +:+ "/" +:+ endpoint in
  let hs := request_headers self headers in
  let r := run_test send show_json first_200 unbound_local
             name method endpoint expected_status data headers self w in
  r.2 = (dispatch send unbound_local method url data hs w).2 ∧
  ((∃ b d, r.1.2 = log_test name b d self ∧ r.1.1.1 = b ∧
           (b = false → r.1.1.2 = JObject []) ∧
           (b = true ↔ ∃ response,
              (dispatch send unbound_local method url data hs w).1 = inr response ∧
              status_code response = expected_status ∧
              (content response = "" ∧ r.1.1.2 = JObject [] ∨
               content response ≠ "" ∧ json_body response = inr r.1.1.2)) ∧
           ¬ unreadable_success send unbound_local method url data hs expected_status w) ∨
   (unreadable_success send unbound_local method url data hs expected_status w ∧
    ∃ e, r.1 = ((false, JObject []),
                log_test name false ("Exception: " +:+ e) (log_test name true "" self)))).
Proof.
  intros url hs r. subst r. unfold run_test. fold url. fold hs.
  unfold unreadable_success.
  destruct (dispatch send unbound_local method url data hs w) as [[e|response] w'] eqn:Hd;
    cbn [fst snd].
  - split; [done|]. left. eexists _, _. split_and!; try done.
    + split; [done|]. intros (response & Hr & _). done.
    + intros (response & Hr & _). done.
  - destruct (status_code response =? expected_status) eqn:Hs; cbn [andb].
    + apply Z.eqb_eq in Hs.
      destruct (String.eqb (content response) "") eqn:Hc; cbn [negb].
      * apply String.eqb_eq in Hc. split; [done|]. left. eexists _, _. split_and!; try done.
        -- split; [|done]. intros _. exists response. split_and!; try done. by left.
        -- intros (response' & Hr & _ & Hne & _). congruence.
      * apply String.eqb_neq in Hc.
        destruct (json_body response) as [e|body] eqn:Hj; cbn [fst snd].
        -- split; [done|]. right. split; [|by exists e].
           exists response. split_and!; try done. by exists e.
        -- split; [done|]. left. eexists _, _. split_and!; try done.
           ++ split; [|done]. intros _. exists response. split_and!; try done. by right.
           ++ intros (response' & Hr & _ & _ & e' & Hj'). congruence.
    + apply Z.eqb_neq in Hs. split; [done|]. left. eexists _, _. split_and!; try done.
      * split; [done|]. intros (response' & Hr & Hs' & _). congruence.
      * intros (response' & Hr & Hs' & _). congruence.
Qed.

Lemma run_test_consistent (name method endpoint : string) (expected_status : Z)
    (data : option json) (headers : option (list (string * string))) (self : t) (w : World) :
  consistent self →
  consistent (run_test send show_json first_200 unbound_local
                name method endpoint expected_status data headers self w).1.2.
Proof.
  intros Hc.
  destruct (run_test_shape name method endpoint expected_status data headers self w)
    as [_ [(b & d & -> & _)|(_ & e & ->)]].
  - by apply consistent_log_test.
  - by do 2 apply consistent_log_test.
Qed.

Lemma filter_all {A} (P : A → Prop) `{∀ x, Decision (P x)} (l : list A) :
  length (filter P l) = length l ↔ Forall P l.
Proof.
  induction l as [|x l IH]; [by split; [constructor|]|].
  destruct (decide (P x)) as [Hx|Hx].
  - rewrite filter_cons_True by done. cbn [length]. rewrite Forall_cons.
    split; [intros Hl; split; [done|]; apply IH; lia | intros [_ Hl]; apply IH in Hl; lia].
  - rewrite filter_cons_False by done. cbn [length]. rewrite Forall_cons.
    pose proof (length_filter P l). split; [lia | tauto].
Qed.

Lemma do_step_consistent (s : step) (self : t) (w : World) :
  consistent self → consistent (do_step send show_json first_200 unbound_local s self w).1.
Proof.
  intros Hc. destruct s as [name method endpoint expected data headers|name b d|tok| |];
    cbn [do_step fst].
  - by apply run_test_consistent.
  - by apply consistent_log_test.
  - done.
  - unfold test_protected_route_without_token.
    pose proof (run_test_consistent "Protected Route Without Token" "GET" "problems" 401
                  None None (set_token None self) w Hc) as H.
    destruct (run_test _ _ _ _ _ _ _ _ _ _ _ _) as [[[ok body] self'] w']. done.
  - unfold test_invalid_login.
    match goal with |- context [run_test _ _ _ _ ?n ?m ?e ?s ?d ?h _ _] =>
      pose proof (run_test_consistent n m e s d h self w Hc) as H end.
    destruct (run_test _ _ _ _ _ _ _ _ _ _ _ _) as [[[ok body] self'] w']. done.
Qed.

(** X16: The tester's counters always describe its log: on a fresh tester,
    after any sequence of requests, directly logged results and token
    assignments, [tests_run] is the number of logged results and
    [tests_passed] the number of logged successes; so the exit code is
    0 exactly when every logged result is a success. *)
Theorem tester_counters_describe_the_log (base_url : string) (steps : list step) (w : World) :
  let self := (after_steps send show_json first_200 unbound_local base_url steps w).1 in
  tests_run self = length (test_results self) ∧
  tests_passed self = length (filter (λ r, success r = true) (test_results self)) ∧
  (tests_passed self ≤ tests_run self)%nat ∧
  (get_results self = 0 ↔ Forall (λ r, success r = true) (test_results self)).
Proof.
  intros self.
  assert (consistent self) as [Hrun Hpassed].
  { subst self. unfold after_steps.
    assert (consistent (init base_url)) as Hinit by done.
    revert Hinit. generalize (init base_url). revert w.
    induction steps as [|s steps IH]; intros w self Hc; [done|].
    cbn [fold_left fst snd].
    pose proof (do_step_consistent s self w Hc) as Hs.
    destruct (do_step _ _ _ _ s self w) as [self' w']. by apply IH. }
  split_and!; try done.
  - rewrite Hrun, Hpassed. apply length_filter.
  - unfold get_results. rewrite <- filter_all, <- Hrun, <- Hpassed.
    destruct (Nat.eqb_spec (tests_passed self) (tests_run self)); split; try done; lia.
Qed.

(** X17: One request, one or two entries.  [run_test] logs exactly one
    result and returns its flag, except when the expected status comes
    with a non-empty body that does not parse: then the request is
    logged twice, first as passed and then as failed, and reported as
    failed.  A passing call returns the parsed body. *)
Theorem run_test_logs_once_or_twice (name method endpoint : string) (expected_status : Z)
    (data : option json) (headers : option (list (string * string))) (self : t) (w : World) :
  let url := api_url self +:+ "/" +:+ endpoint in
  let hs := request_headers self headers in
  let r := run_test send show_json first_200 unbound_local
             name method endpoint expected_status data headers self w in
  let ok := r.1.1.1 in
  let self' := r.1.2 in
  (¬ unreadable_success send unbound_local method url data hs expected_status w →
   ∃ d, test_results self' = test_results self ++ [Build_result name ok d] ∧
        tests_run self' = (tests_run self + 1)%nat ∧
        tests_passed self' = (tests_passed self + if ok then 1 else 0)%nat) ∧
  (unreadable_success send unbound_local method url data hs expected_status w →
   ∃ d, test_results self' =
          test_results self ++ [Build_result name true ""; Build_result name false d] ∧
        ok = false ∧
        tests_run self' = (tests_run self + 2)%nat ∧
        tests_passed self' = (tests_passed self + 1)%nat) ∧
  (ok = true ↔ ∃ response,
     (dispatch send unbound_local method url data hs w).1 = inr response ∧
     status_code response = expected_status ∧
     (content response = "" ∧ r.1.1.2 = JObject [] ∨
      content response ≠ "" ∧ json_body response = inr r.1.1.2)).
Proof.
  intros url hs r ok self'. subst url hs ok self' r.
  pose proof (run_test_shape name method endpoint expected_status data headers self w) as H.
  cbv zeta in H.
  destruct H as [_ [(b & d & Hself & Hok & _ & Hiff & Hnot)|(Hun & e & Hr)]].
  - rewrite Hself, Hok. split_and!; [|done|done].
    intros _. exists d. cbn [log_test test_results tests_run tests_passed].
    split_and!; try done. destruct b; lia.
  - rewrite Hr. cbn [fst snd]. split_and!; [done| |].
    + intros _. eexists. cbn [log_test test_results tests_run tests_passed].
      rewrite <- app_assoc. split_and!; try done; lia.
    + split; [done|]. intros (response & Hd & Hs & Hbody).
      destruct Hun as (response' & Hd' & _ & Hne & e' & Hj).
      assert (response' = response) as -> by congruence.
      destruct Hbody as [[? _]|[_ ?]]; congruence.
Qed.

Lemma dispatch_get (url : string) (data : option json) (hs : list (string * string)) (w : World) :
  dispatch send unbound_local "GET" url data hs w = send "GET" url None hs w.
Proof. done. Qed.

(** X18: The unauthenticated probe.  Whatever token the tester holds,
    [test_protected_route_without_token] sends GET /problems with the
    Content-Type header alone, puts the token back afterwards, and
    passes exactly when the answer is a 401 whose body is empty or
    parses. *)
Theorem protected_route_test_sends_no_token (self : t) (w : World) :
  let sent := send "GET" (api_url self +:+ "/problems") None
                   [("Content-Type", "application/json")] w in
  let r := test_protected_route_without_token send show_json first_200 unbound_local self w in
  token r.1.2 = token self ∧
  user_id r.1.2 = user_id self ∧
  r.2 = sent.2 ∧
  (r.1.1 = true ↔ ∃ response, sent.1 = inr response ∧ status_code response = 401 ∧
       (content response = "" ∨ ∃ body, json_body response = inr body)).
Proof.
  intros sent r. subst r. unfold test_protected_route_without_token.
  unfold run_test. rewrite dispatch_get.
  change (request_headers (set_token None self) None)
    with [("Content-Type", "application/json")].
  change (api_url (set_token None self) +:+ "/" +:+ "problems")
    with (api_url self +:+ "/problems").
  fold sent.
  destruct sent as [[e|response] w'] eqn:Hsent; cbn [fst snd].
  { split_and!; try done. split; [done|]. by intros (response & ? & _). }
  destruct (status_code response =? 401) eqn:Hs; cbn [andb].
  - apply Z.eqb_eq in Hs.
    destruct (String.eqb (content response) "") eqn:Hc; cbn [negb].
    + apply String.eqb_eq in Hc. split_and!; try done.
      split; [|done]. intros _. exists response. split_and!; try done. by left.
    + apply String.eqb_neq in Hc.
      destruct (json_body response) as [e|body] eqn:Hj; cbn [fst snd].
      * split_and!; try done. split; [done|].
        intros (response' & Hr & _ & [?|[body ?]]); congruence.
      * split_and!; try done. split; [|done]. intros _. exists response.
        split_and!; try done. right. by exists body.
  - apply Z.eqb_neq in Hs. split_and!; try done. split; [done|].
    intros (response' & Hr & ? & _). congruence.
Qed.

End tester.

(** ** The statements at concrete inputs *)

Section examples.
Import Sample.

Example stats_of_history :
  stats_of 19737 history
  = Return (Stats.mk 4 2
      [ TopicStats.mk "Arrays" 3 (S754_finite false 5277655813324800 (-46));
        TopicStats.mk "Hash Table" 2 (S754_finite false 7036874417766400 (-47));
        TopicStats.mk "DP" 1 (S754_finite false 7036874417766400 (-48));
        TopicStats.mk "Trees" 1 (S754_finite false 7036874417766400 (-48)) ]).
Proof. vm_compute. reflexivity. Qed.

Example percentage_of_third :
  percentage_of 1 3 = S754_finite false 4686558362232422 (-47).
Proof. vm_compute. reflexivity. Qed.

Lemma no_grace_period_witness :
  ∃ st, stats_of 19737 [solved ["Arrays"] "2024-01-14"] = Return st ∧
        Stats.current_streak st = 0%nat.
Proof.
  apply (no_grace_period 19737 [solved ["Arrays"] "2024-01-14"] "2024-01-14" 19736).
  - done.
  - split; [left|]. intros s' ->%list_elem_of_singleton. reflexivity.
  - reflexivity.
  - lia.
Defined.

(** The date-only ISO form orders as the dates do. *)
Lemma sample_order_preserving : order_preserving.
Proof. intros s1 s2 d1 d2. apply Iso8601_facts.parse_lt. Qed.

Lemma history_well_dated : Forall well_dated history.
Proof. repeat constructor; by eexists. Qed.



Example alice_registered :
  alice_db = {| users := [UserDoc.mk "uuid-0" "alice" noon "$2b$salt$TestPass123!"];
                problems := [] |}.
Proof. reflexivity. Qed.

Example alice_verified : get_current_user key later alice_credentials = Return "uuid-0".
Proof. vm_compute. reflexivity. Qed.

Lemma bearer_verification_witness :
  get_current_user key env
    (HTTPAuthorizationCredentials.mk "Bearer"
       (create_access_token "another-key" env (Claims (Some "uuid-0") None)))
  = Raise (AttributeError "JWTError") ∧
  status (get_stats_route key env
            (HTTPAuthorizationCredentials.mk "Bearer"
               (create_access_token "another-key" env (Claims (Some "uuid-0") None)))
            alice_db).1 = 500 ∧
  status (get_problems_route key env
            (HTTPAuthorizationCredentials.mk "Bearer" (NotJws "garbage")) alice_db).1 = 500.
Proof.
  split; [|split].
  - apply (proj1 (proj1 (proj2 (bearer_verification key env "Bearer"
             (create_access_token "another-key" env (Claims (Some "uuid-0") None))))
             (Claims (Some "uuid-0") (Some (noon + 30 * 86400)))
             (hs256 "another-key" (Claims (Some "uuid-0") (Some (noon + 30 * 86400))))
             eq_refl)).
    vm_compute. discriminate.
  - destruct (proj2 (proj2 (bearer_verification key env "Bearer"
               (create_access_token "another-key" env (Claims (Some "uuid-0") None))))
               ltac:(intros user_id (payload & Hpayload & _); vm_compute in Hpayload;
                     discriminate)
               empty_title_and_topics alice_db)
      as (_ & _ & _ & _ & _ & _ & -> & Hstatus).
    apply Hstatus. vm_compute. discriminate.
  - destruct (proj2 (proj2 (bearer_verification key env "Bearer" (NotJws "garbage")))
               ltac:(intros user_id (payload & Hpayload & _); discriminate)
               empty_title_and_topics alice_db)
      as (_ & _ & _ & _ & _ & -> & _ & Hstatus).
    apply Hstatus. vm_compute. discriminate.
Defined.

Lemma issue_verify_round_trip_witness :
  now later < now env + 30 * 86400 ∧
  get_current_user key later alice_credentials = Return "uuid-0".
Proof.
  split; [vm_compute; reflexivity|].
  apply (issue_verify_round_trip key env "uuid-0"). vm_compute. reflexivity.
Defined.

Lemma register_once_per_username_witness :
  username_free (users empty_db) "alice" ∧
  register key later (UserRegister.mk "alice" "another") alice_db
    = (Raise (HTTPException 400 "Username already registered"), alice_db).
Proof.
  assert (username_free (users empty_db) "alice") as Hfree.
  { intros d Hd. by apply elem_of_nil in Hd. }
  split; [exact Hfree|].
  destruct (proj1 (register_once_per_username key env alice empty_db) Hfree)
    as (token & doc & _ & _ & _ & Hagain).
  apply (Hagain later (UserRegister.mk "alice" "another")). reflexivity.
Defined.

Lemma alice_stored :
  stored (users alice_db) "alice" (UserDoc.mk "uuid-0" "alice" noon "$2b$salt$TestPass123!").
Proof.
  exists [], []. split; [reflexivity|]. split; [reflexivity|].
  intros d Hd. by apply elem_of_nil in Hd.
Qed.

Lemma login_checks_credentials_witness :
  login key later (UserLogin.mk "alice" "wrongpass") alice_db
    = (Raise (HTTPException 401 "Incorrect username or password"), alice_db) ∧
  ∃ token payload signature,
    login key later (UserLogin.mk "alice" "TestPass123!") alice_db = (Return token, alice_db) ∧
    status (login key later (UserLogin.mk "alice" "TestPass123!") alice_db).1 = 200 ∧
    Token.access_token token = Jws payload signature ∧
    sub payload = Some "uuid-0" ∧
    get_current_user key later
      (HTTPAuthorizationCredentials.mk "Bearer" (Token.access_token token)) = Return "uuid-0".
Proof.
  split.
  - apply (login_checks_credentials key later (UserLogin.mk "alice" "wrongpass") alice_db)
      with (doc := UserDoc.mk "uuid-0" "alice" noon "$2b$salt$TestPass123!").
    + exact alice_stored.
    + vm_compute. reflexivity.
  - apply (login_checks_credentials key later (UserLogin.mk "alice" "TestPass123!") alice_db)
      with (doc := UserDoc.mk "uuid-0" "alice" noon "$2b$salt$TestPass123!").
    + exact alice_stored.
    + vm_compute. reflexivity.
Defined.

Lemma seed_data_idempotent_witness :
  get_current_user key later alice_credentials = Return "uuid-0" ∧
  ∃ new,
    post_seed_data key later alice_credentials alice_db
      = (Return (Message.mk "Seeded 10 sample problems"),
         {| users := users alice_db; problems := problems alice_db ++ new |}) ∧
    length new = 10%nat ∧
    Forall (λ p, Problem.user_id p = "uuid-0") new ∧
    Problem.title <$> new = sample_titles.
Proof.
  assert (get_current_user key later alice_credentials = Return "uuid-0") as Hauth
    by (vm_compute; reflexivity).
  split; [exact Hauth|].
  apply (seed_data_idempotent key later alice_credentials "uuid-0" alice_db Hauth).
  intros (p & Hp & _). by apply elem_of_nil in Hp.
Defined.

Lemma auth_responses_hide_password_witness :
  ∃ token,
    login key later (UserLogin.mk "alice" "TestPass123!") alice_db = (Return token, alice_db) ∧
    (User.model_dump (Token.user token)).*1 = ["id"; "username"; "created_at"].
Proof.
  assert (∃ token, login key later (UserLogin.mk "alice" "TestPass123!") alice_db
                   = (Return token, alice_db)) as [token Hlogin]
    by (eexists; reflexivity).
  exists token. split; [exact Hlogin|].
  apply (proj1 (proj2 (auth_responses_hide_password key later)) _ _ _ _ Hlogin).
Defined.

(** Seeding alice's empty list and asking for her statistics the same
    day: ten problems on nine consecutive days ending today. *)
Example stats_after_seeding :
  let db := (post_seed_data key later alice_credentials alice_db).2 in
  ∃ topic_wise,
    (get_stats_route key later alice_credentials db).1
    = Return (Stats.mk 10 9 topic_wise).
Proof. eexists. vm_compute. reflexivity. Qed.

(** The invalid-creation request of the test suite, sent by alice: the
    test expects 422, the route answers 200 and stores the problem. *)
Example post_problems_empty_title_and_topics :
  post_problems key later alice_credentials empty_title_and_topics alice_db
  = (Return (Problem.mk "uuid'-0" "uuid-0" "" "LeetCode" "Easy" [] "2024-01-15" (noon + 86400)),
     {| users := users alice_db;
        problems := [Problem.mk "uuid'-0" "uuid-0" "" "LeetCode" "Easy" [] "2024-01-15"
                                (noon + 86400)] |}).
Proof. vm_compute. reflexivity. Qed.

(** *** Further properties *)

Lemma get_problems_lists_own_witness :
  ∃ listed,
    get_problems "alice-id" history_db = (Return listed, history_db) ∧
    listed = owned (problems history_db) "alice-id".
Proof.
  destruct (get_problems_lists_own "alice-id" history_db)
    as (listed & Hget & _ & _ & _ & Hall).
  exists listed. split; [exact Hget|].
  apply Hall. vm_compute. lia.
Defined.

Lemma create_problem_then_listed_witness :
  (get_problems "alice-id" (create_problem later test_problem "alice-id" history_db).2).1
    = Return (owned (problems history_db) "alice-id"
              ++ [new_problem later 0 "alice-id" test_problem]) ∧
  (get_problems "alice-id" (create_problem later test_problem "alice-id" crowded_db).2).1
    = (get_problems "alice-id" crowded_db).1 ∧
  new_problem later 0 "alice-id" test_problem
    ∈ problems (create_problem later test_problem "alice-id" crowded_db).2.
Proof.
  split.
  - apply (create_problem_then_listed later test_problem "alice-id" history_db).
    vm_compute. lia.
  - apply (create_problem_then_listed later test_problem "alice-id" crowded_db).
    apply Nat.leb_le. vm_compute. reflexivity.
Defined.

Lemma other_users_unaffected_witness :
  "alice-id" ≠ "uuid-0" ∧
  (get_problems "alice-id" (create_problem env test_problem "uuid-0" history_db).2).1
    = (get_problems "alice-id" history_db).1 ∧
  (get_stats later "alice-id" (create_problem env test_problem "uuid-0" history_db).2).1
    = (get_stats later "alice-id" history_db).1 ∧
  (get_problems "alice-id" (seed_data env "uuid-0" history_db).2).1
    = (get_problems "alice-id" history_db).1 ∧
  (get_stats later "alice-id" (seed_data env "uuid-0" history_db).2).1
    = (get_stats later "alice-id" history_db).1.
Proof.
  split; [done|].
  apply (other_users_unaffected env later test_problem "uuid-0" "alice-id" history_db). done.
Defined.

Lemma store_append_only_witness :
  status (register key later alice alice_db).1 ≠ 200 ∧
  (register key later alice alice_db).2 = alice_db.
Proof.
  assert (status (register key later alice alice_db).1 ≠ 200) as Hrefused
    by (vm_compute; discriminate).
  split; [exact Hrefused|].
  destruct (store_append_only key later alice_credentials test_problem_body alice
              (UserLogin.mk "alice" "TestPass123!") alice_db)
    as (_ & _ & _ & _ & _ & _ & _ & Hregister & _).
  exact (Hregister Hrefused).
Defined.

Lemma usernames_stay_unique_witness :
  unique_usernames alice_db ∧
  Forall unique_usernames
         (after_any_request key later alice_credentials test_problem_body
            (UserRegister.mk "bob" "hunter2") (UserLogin.mk "alice" "TestPass123!") alice_db).
Proof.
  assert (unique_usernames alice_db) as Hunique.
  { unfold unique_usernames. vm_compute. apply NoDup_singleton. }
  split; [exact Hunique|].
  apply (usernames_stay_unique key later alice_credentials test_problem_body
           (UserRegister.mk "bob" "hunter2") (UserLogin.mk "alice" "TestPass123!") alice_db
           Hunique).
Defined.

Lemma register_then_login_witness :
  ∃ token token',
    register key env alice empty_db = (Return token, alice_db) ∧
    login key later (UserLogin.mk "alice" "TestPass123!") alice_db = (Return token', alice_db) ∧
    Token.user token' = Token.user token.
Proof.
  destruct (register_then_login key env later alice empty_db)
    as (token & token' & hashed & Hregister & Hlogin & Huser & _).
  - vm_compute. reflexivity.
  - intros d Hd. by apply elem_of_nil in Hd.
  - exists token, token'. split; [exact Hregister|]. split; [exact Hlogin|]. exact Huser.
Defined.

Lemma registered_user_records_a_problem_witness :
  ∃ token,
    (register key env alice empty_db).1 = Return token ∧
    (get_problems_route key later
       (HTTPAuthorizationCredentials.mk "Bearer" (Token.access_token token))
       (post_problems key later
          (HTTPAuthorizationCredentials.mk "Bearer" (Token.access_token token))
          test_problem_body (register key env alice empty_db).2).2).1
    = Return (take 1000 (owned (problems empty_db) (User.id (Token.user token))
                         ++ [new_problem later 0 (User.id (Token.user token)) test_problem])).
Proof.
  destruct (registered_user_records_a_problem key env later later alice test_problem_body
              test_problem empty_db) as (token & Hregister & _ & Hlisted).
  - intros d Hd. by apply elem_of_nil in Hd.
  - reflexivity.
  - vm_compute. reflexivity.
  - vm_compute. reflexivity.
  - exists token. split; [exact Hregister|]. exact Hlisted.
Defined.

Lemma issued_token_expires_witness :
  now env + 30 * 86400 < now next_month ∧
  get_current_user key next_month alice_credentials
  = Raise (HTTPException 401 "Token has expired").
Proof.
  split; [vm_compute; reflexivity|].
  apply (issued_token_expires key env next_month (Claims (Some "uuid-0") None) "Bearer").
  vm_compute. reflexivity.
Defined.

(** The sample library reads date-only strings alone and orders them
    as dates: so the dates of [history] and those the seed prints, as
    [datetime.fromisoformat] orders them too. *)
Lemma sample_ordered_as_dates (values : list string) : ordered_as_dates values.
Proof. intros s1 s2 d1 d2 _ _. apply sample_order_preserving. Qed.

Lemma future_date_resets_streak_witness :
  completed history 19737 ∧
  ∃ st, stats_of 19736 history = Return st ∧ Stats.current_streak st = 0%nat.
Proof.
  assert (completed history 19737) as Hdone.
  { exists (solved ["Arrays"; "Hash Table"] "2024-01-15"). split; [left|reflexivity]. }
  split; [exact Hdone|].
  apply (future_date_resets_streak 19736 history 19737
           (sample_ordered_as_dates _) history_well_dated Hdone).
  lia.
Defined.

Lemma history_completed (d : Z) :
  completed history d ↔ d = 19737 ∨ d = 19736 ∨ d = 19734.
Proof.
  split.
  - intros (p & Hp & Hd). unfold history in Hp.
    repeat (apply elem_of_cons in Hp as [->|Hp]; [vm_compute in Hd; injection Hd; lia|]).
    by apply elem_of_nil in Hp.
  - intros [->|[->| ->]].
    + exists (solved ["Arrays"; "Hash Table"] "2024-01-15"). split; [left|reflexivity].
    + exists (solved ["Arrays"] "2024-01-14"). split; [right; left|reflexivity].
    + exists (solved ["Hash Table"; "Trees"] "2024-01-12").
      split; [do 3 right; left|reflexivity].
Qed.

Lemma streak_counts_back_from_today_witness :
  (∀ d, completed history d → d ≤ 19737) ∧
  ∃ st, stats_of 19737 history = Return st ∧ Stats.current_streak st = 2%nat.
Proof.
  assert (∀ d, completed history d → d ≤ 19737) as Hpast.
  { intros d Hd%history_completed. lia. }
  split; [exact Hpast|].
  destruct (streak_counts_back_from_today 19737 history
              (sample_ordered_as_dates _) history_well_dated Hpast) as (st & Hst & Hstreak).
  exists st. split; [exact Hst|].
  apply Hstreak. split.
  - intros i Hi. apply history_completed.
    assert (i = 0 ∨ i = 1)%nat as [-> | ->] by lia; [left | right; left]; reflexivity.
  - intros Hd%history_completed. simpl in Hd. lia.
Defined.




Lemma post_problems_checks_the_body_witness :
  get_current_user key later alice_credentials = Return "uuid-0" ∧
  carries test_problem_body test_problem ∧
  (∀ problem_data, ¬ carries (JString "Two Sum") problem_data) ∧
  (post_problems key later alice_credentials test_problem_body alice_db).1
    = Return (Problem.mk "uuid'-0" "uuid-0" "Test Problem" "LeetCode" "Easy"
                         ["Arrays"; "Hash Table"] "2024-01-15" (noon + 86400)) ∧
  post_problems key later alice_credentials (JString "Two Sum") alice_db
    = (Raise RequestValidationError, alice_db).
Proof.
  assert (get_current_user key later alice_credentials = Return "uuid-0") as Hauth
    by (vm_compute; reflexivity).
  assert (carries test_problem_body test_problem) as Hbody
    by (eexists; repeat split; reflexivity).
  assert (∀ problem_data, ¬ carries (JString "Two Sum") problem_data) as Hnone
    by (intros problem_data (ms & Hms & _); discriminate).
  split; [exact Hauth|]. split; [exact Hbody|]. split; [exact Hnone|]. split.
  - rewrite (proj1 (post_problems_checks_the_body key later alice_credentials "uuid-0"
                      test_problem_body alice_db Hauth) test_problem Hbody).
    reflexivity.
  - apply (proj2 (post_problems_checks_the_body key later alice_credentials "uuid-0"
                    (JString "Two Sum") alice_db Hauth) Hnone).
Defined.

Lemma seeding_gives_a_nine_day_streak_witness :
  ¬ has_problems (problems alice_db) "uuid-0" ∧
  ∃ st,
    get_stats env "uuid-0" (seed_data env "uuid-0" alice_db).2
      = (Return st, (seed_data env "uuid-0" alice_db).2) ∧
    Stats.total_solved st = 10%nat ∧
    Stats.current_streak st = 9%nat.
Proof.
  assert (¬ has_problems (problems alice_db) "uuid-0") as Hnone.
  { intros (p & Hp & _). by apply elem_of_nil in Hp. }
  split; [exact Hnone|].
  destruct (seeding_gives_a_nine_day_streak env env "uuid-0" alice_db)
    as (st & Hget & Htotal & _ & Hsame & _).
  - intros k Hk.
    assert (k = 0 ∨ k = 1 ∨ k = 2 ∨ k = 3 ∨ k = 4 ∨ k = 5 ∨ k = 6 ∨ k = 7 ∨ k = 8)
      as Hcases by lia.
    destruct Hcases as [->|[->|[->|[->|[->|[->|[->|[->| ->]]]]]]]];
      vm_compute; reflexivity.
  - apply sample_ordered_as_dates.
  - exact Hnone.
  - exists st. split; [exact Hget|]. split; [exact Htotal|]. apply Hsame. reflexivity.
Defined.

Lemma run_test_logs_once_or_twice_witness :
  Tester.unreadable_success canned unbound_local "POST" "http://localhost:8001/api/auth/login"
    None [("Content-Type", "application/json")] 200 0%nat ∧
  (∃ d, Tester.test_results
          (Tester.run_test canned show_json first_200 unbound_local
             "User Login" "POST" "auth/login" 200 None None tester 0%nat).1.2
        = [Tester.Build_result "User Login" true "";
           Tester.Build_result "User Login" false d]) ∧
  ¬ Tester.unreadable_success canned unbound_local "GET" "http://localhost:8001/api/problems"
      None [("Content-Type", "application/json")] 200 0%nat ∧
  (∃ d, Tester.test_results
          (Tester.run_test canned show_json first_200 unbound_local
             "Get Problems" "GET" "problems" 200 None None tester 0%nat).1.2
        = [Tester.Build_result "Get Problems" false d]).
Proof.
  assert (Tester.unreadable_success canned unbound_local "POST"
            "http://localhost:8001/api/auth/login"
            None [("Content-Type", "application/json")] 200 0%nat) as Htwice.
  { eexists. split; [reflexivity|]. split; [reflexivity|]. split; [discriminate|].
    eexists. reflexivity. }
  assert (¬ Tester.unreadable_success canned unbound_local "GET"
              "http://localhost:8001/api/problems"
              None [("Content-Type", "application/json")] 200 0%nat) as Honce.
  { intros (response & Hsent & Hstatus & _). injection Hsent as <-. discriminate. }
  split; [exact Htwice|]. split; [|split; [exact Honce|]].
  - destruct (proj1 (proj2 (run_test_logs_once_or_twice canned show_json first_200
                              unbound_local "User Login" "POST" "auth/login" 200 None None
                              tester 0%nat)) Htwice) as (d & Hlog & _).
    exists d. exact Hlog.
  - destruct (proj1 (run_test_logs_once_or_twice canned show_json first_200
                       unbound_local "Get Problems" "GET" "problems" 200 None None
                       tester 0%nat) Honce) as (d & Hlog & _).
    exists d. exact Hlog.
Defined.

Example tester_probe :
  Tester.test_protected_route_without_token canned show_json first_200 unbound_local
    (Tester.set_token (Some "secret") tester) 0%nat
  = (true,
     Tester.log_test "Protected Route Without Token" true ""
       (Tester.set_token (Some "secret") tester),
     1%nat).
Proof. vm_compute. reflexivity. Qed.

End examples.
